(** * Water-quality image processor: the quadrant OCR extraction engine

    A shallow embedding of [scripts/process-image.js] (the multi-strategy
    variant with confidence selection) and the properties of its
    partitioner, its candidate extraction, its cross-variant selection and
    its orchestrator.

    Conventions of the embedding:
    - a JavaScript string that comes from the OCR engine is a list of
      UTF-16 code units ([list N]); strings the script itself produces
      (formatted numbers, property names) are ASCII and are Rocq [string]s;
    - a JavaScript number that holds a reading or a confidence is an IEEE 754
      binary64 value, a [spec_float] with precision 53 and maximal exponent
      1024, as in the Standard Library's specification of floating-point
      arithmetic; image dimensions are integers ([Z]);
    - the [results] object is a finite map from property names to strings;
    - the external collaborators (image decoder, preprocessing, OCR engine)
      are the fields of an environment record: what they return, or that
      they throw. *)

From Stdlib Require Import ZArith NArith List String Ascii Bool Lia.
From Stdlib Require Import SpecFloat DecimalString.
From Stdlib Require Import Permutation.
From stdpp Require Import gmap strings.

Import ListNotations.
Local Open Scope Z_scope.

(** ** JavaScript strings as UTF-16 code units *)

Module JsString.

(** An ASCII literal as a sequence of code units. *)
Fixpoint utf16 (s : string) : list N :=
  match s with
  | EmptyString => []
  | String c r => N_of_ascii c :: utf16 r
  end.

Definition cu_space : N := 32%N.
Definition cu_plus  : N := 43%N.
Definition cu_minus : N := 45%N.
Definition cu_dot   : N := 46%N.

(** [\d] without the unicode flag: the ASCII digits. *)
Definition isDigit (c : N) : bool := ((48 <=? c) && (c <=? 57))%N.

(** [\s], which is also what [trim] strips: WhiteSpace and LineTerminator. *)
Definition isSpace (c : N) : bool :=
  (((9 <=? c) && (c <=? 13)) || (c =? 32) || (c =? 160) || (c =? 5760)
   || ((8192 <=? c) && (c <=? 8202)) || (c =? 8232) || (c =? 8233)
   || (c =? 8239) || (c =? 8287) || (c =? 12288) || (c =? 65279))%N.

(** The longest prefix of characters satisfying [p], and what follows. *)
Fixpoint span {A : Type} (p : A -> bool) (s : list A) : list A * list A :=
  match s with
  | [] => ([], [])
  | c :: r => if p c then let (a, b) := span p r in (c :: a, b) else ([], s)
  end.

Fixpoint dropWhile (p : N -> bool) (s : list N) : list N :=
  match s with
  | [] => []
  | c :: r => if p c then dropWhile p r else s
  end.

(** [String.prototype.trim]. *)
Definition trim (s : list N) : list N :=
  rev (dropWhile isSpace (rev (dropWhile isSpace s))).

(** [s.startsWith(p)] *)
Fixpoint startsWith (p s : list N) : bool :=
  match p, s with
  | [], _ => true
  | a :: p', b :: s' => (a =? b)%N && startsWith p' s'
  | _ :: _, [] => false
  end.

End JsString.
Import JsString.

(** ** The two regular expressions of [extractNumericValue] *)

Module Regex.

(** The class [[^\d.\s-]]: everything but digits, dots, whitespace and
    minus signs. *)
Definition isNoise (c : N) : bool :=
  negb (isDigit c || (c =? cu_dot)%N || isSpace c || (c =? cu_minus)%N).

(** [text.replace(/[^\d.\s-]/g, ' ')]: each code unit of the class becomes
    one space. *)
Definition replaceNoise (text : list N) : list N :=
  map (fun c => if isNoise c then cu_space else c) text.

(** One attempt of [/-?\d+\.?\d*/] at the start of [s]: the matched text and
    the rest.  The quantifiers are greedy; the only backtracking point is
    the optional minus, and giving it up leaves a minus where a digit is
    required, so the attempt fails. *)
Definition matchAt (s : list N) : option (list N * list N) :=
  let (sign, r0) :=
    match s with
    | c :: r => if (c =? cu_minus)%N then ([c], r) else ([], s)
    | [] => ([], s)
    end in
  let (ds, r1) := span isDigit r0 in
  match ds with
  | [] => None
  | _ :: _ =>
    let (dot, r2) :=
      match r1 with
      | c :: r => if (c =? cu_dot)%N then ([c], r) else ([], r1)
      | [] => ([], r1)
      end in
    let (fs, r3) := span isDigit r2 in
    Some (sign ++ ds ++ dot ++ fs, r3)
  end.

(** The global scan: try at the current position; after a match go on
    behind it, otherwise one code unit further.  [fuel] bounds the number
    of attempts; the length of the text is always enough. *)
Fixpoint matchAllFrom (fuel : nat) (s : list N) : list (list N) :=
  match fuel with
  | O => []
  | S fuel' =>
    match s with
    | [] => []
    | _ :: s' =>
      match matchAt s with
      | Some (tok, rest) => tok :: matchAllFrom fuel' rest
      | None => matchAllFrom fuel' s'
      end
    end
  end.

(** [s.match(/-?\d+\.?\d*/g)]: [None] is JavaScript's [null]. *)
Definition matchAll (s : list N) : option (list (list N)) :=
  match matchAllFrom (List.length s) s with
  | [] => None
  | toks => Some toks
  end.

End Regex.
Import Regex.

(** ** JavaScript numbers: IEEE 754 binary64 *)

Module Num.

Definition prec : Z := 53.
Definition emax : Z := 1024.

(** The Number value of an integer: round to nearest, ties to even. *)
Definition ofZ (z : Z) : spec_float := binary_normalize prec emax z 0 false.

Definition isNaN (x : spec_float) : bool :=
  match x with S754_nan => true | _ => false end.

(** [a < b], [a <= b], [a > b], [a >= b]: all false when an operand is NaN. *)
Definition ltb (a b : spec_float) : bool := SFltb a b.
Definition leb (a b : spec_float) : bool := SFleb a b.
Definition gtb (a b : spec_float) : bool := SFltb b a.
Definition geb (a b : spec_float) : bool := SFleb b a.

(** *** Decimal digits *)

Definition digitVal (c : N) : Z := Z.of_N c - 48.

Definition digitsVal (ds : list N) : Z :=
  fold_left (fun acc c => 10 * acc + digitVal c) ds 0.

(** The Number value of [n * 10^e10] with the sign [neg]: the exact value
    rounded once to nearest, ties to even, which is what the engines compute
    for a literal of any length; a zero keeps the sign ([-0]). *)
Definition ofDecimal (neg : bool) (n e10 : Z) : spec_float :=
  match n with
  | Zpos p =>
    if 0 <=? e10
    then binary_round prec emax neg (Z.to_pos (Zpos p * 10 ^ e10)) 0
    else SFdiv prec emax (S754_finite neg p 0)
                         (S754_finite false (Z.to_pos (10 ^ (- e10))) 0)
  | _ => S754_zero neg
  end.

(** [ExponentPart]: [e] or [E], an optional sign and at least one digit;
    anything else is not part of the literal. *)
Definition exponentPart (s : list N) : Z :=
  match s with
  | c :: r =>
    if ((c =? 101) || (c =? 69))%N then
      let (neg, r') :=
        match r with
        | d :: r'' =>
          if (d =? cu_minus)%N then (true, r'')
          else if (d =? cu_plus)%N then (false, r'')
          else (false, r)
        | [] => (false, r)
        end in
      match fst (span isDigit r') with
      | [] => 0
      | ds => if neg then - digitsVal ds else digitsVal ds
      end
    else 0
  | [] => 0
  end.

(** The value of the longest prefix of [s] that is a
    [StrUnsignedDecimalLiteral], with the sign [neg]; NaN when there is
    none. *)
Definition strDecimalValue (neg : bool) (s : list N) : spec_float :=
  if startsWith (utf16 "Infinity") s then S754_infinity neg
  else
    let (ip, r1) := span isDigit s in
    let (fp, r2) :=
      match r1 with
      | c :: r =>
        if (c =? cu_dot)%N then
          match ip, span isDigit r with
          | [], ([], _) => ([], r1)
          | _, fr => fr
          end
        else ([], r1)
      | [] => ([], r1)
      end in
    match ip ++ fp with
    | [] => S754_nan
    | ds => ofDecimal neg (digitsVal ds)
                      (exponentPart r2 - Z.of_nat (List.length fp))
    end.

(** [parseFloat]: skip leading whitespace and an optional sign, then take
    the longest prefix that is a decimal literal. *)
Definition parseFloat (s : list N) : spec_float :=
  match dropWhile isSpace s with
  | c :: r =>
    if (c =? cu_minus)%N then strDecimalValue true r
    else if (c =? cu_plus)%N then strDecimalValue false r
    else strDecimalValue false (c :: r)
  | [] => S754_nan
  end.

(** *** [Number.prototype.toFixed] *)

(** The decimal digits of a natural number, most significant first; zero is
    the single digit 0. *)
Definition digitsOf (n : Z) : list ascii :=
  list_ascii_of_string (NilZero.string_of_uint (N.to_uint (Z.to_N n))).

(** The integer [n] for which [n / 10^f] is closest to [m * 2^e]; of two
    equally close ones the larger. *)
Definition scaledRound (m : positive) (e : Z) (f : nat) : Z :=
  let p := Zpos m * 10 ^ Z.of_nat f in
  if 0 <=? e then p * 2 ^ e else (2 * p + 2 ^ (- e)) / 2 ^ (1 - e).

(** [|x| < b] on the exact value of a finite [x]. *)
Definition absLt (x : spec_float) (b : Z) : bool :=
  match x with
  | S754_zero _ => 0 <? b
  | S754_finite _ m e =>
    if 0 <=? e then Zpos m * 2 ^ e <? b else Zpos m <? b * 2 ^ (- e)
  | _ => false
  end.

(** [Number::toString] on the branch of [toFixed] that uses it: a finite
    value of at least 10^21, which is an integer [X].  It looks for the
    fewest digits [k] and the integer [s] of [k] digits with [s * 10^(n-k)]
    rounding to the same Number, the closest such [s] when there are
    several, and returns [(s, n)]. *)
Fixpoint shortestDigits (fuel : nat) (k X d : Z) : Z * Z :=
  match fuel with
  | O => (X, d)
  | S fuel' =>
    let scale := 10 ^ (d - k) in
    let lo := X / scale in
    let hi := lo + 1 in
    let okLo := SFeqb (ofZ (lo * scale)) (ofZ X) in
    let okHi := SFeqb (ofZ (hi * scale)) (ofZ X) in
    let useHi := if hi =? 10 ^ k then (10 ^ (k - 1), d + 1) else (hi, d) in
    if okLo && okHi then
      match (X - lo * scale) ?= (hi * scale - X) with
      | Lt => (lo, d)
      | Gt => useHi
      | Eq => if Z.even lo then (lo, d) else useHi
      end
    else if okLo then (lo, d)
    else if okHi then useHi
    else shortestDigits fuel' (k + 1) X d
  end.

(** The exponent form [d.ddde+x] of such a value. *)
Definition toStringBig (X : Z) : list ascii :=
  let d := Z.of_nat (List.length (digitsOf X)) in
  let (s, n) := shortestDigits 17 1 X d in
  match digitsOf s with
  | [] => []
  | c :: rest =>
    (c :: match rest with [] => [] | _ :: _ => "."%char :: rest end)
    ++ "e"%char :: "+"%char :: digitsOf (n - 1)
  end.

(** Steps 10 and 11 of [toFixed] on a non-negative integer [n] that stands
    for [n / 10^f]: pad with zeros to [f + 1] digits and set the point before
    the last [f]. *)
Definition fixedDigits (f : nat) (n : Z) : list ascii :=
  let m := digitsOf n in
  match f with
  | O => m
  | S _ =>
    let m' := if (List.length m <=? f)%nat
              then repeat "0"%char (f + 1 - List.length m) ++ m else m in
    let k := List.length m' in
    firstn (k - f) m' ++ "."%char :: skipn (k - f) m'
  end.

(** [x.toFixed(f)] for [0 <= f <= 100]. *)
Definition toFixed (f : nat) (x : spec_float) : string :=
  match x with
  | S754_nan => "NaN"
  | S754_infinity s => if s then "-Infinity" else "Infinity"
  | S754_zero _ => string_of_list_ascii (fixedDigits f 0)
  | S754_finite s m e =>
    String.append (if s then "-" else "")
      (string_of_list_ascii
         (if absLt x (10 ^ 21)
          then fixedDigits f (scaledRound m e f)
          else toStringBig (if 0 <=? e then Zpos m * 2 ^ e
                            else Zpos m / 2 ^ (- e))))
  end.

End Num.

(** ** The script *)

Module Region.

(** The argument of [sharp(...).extract]: an axis-aligned rectangle. *)
Record t : Set := mk { left : Z; top : Z; width : Z; height : Z }.

(** The pixel in column [x] and row [y] lies in the rectangle. *)
Definition contains (r : t) (x y : Z) : Prop :=
  left r <= x < left r + width r /\ top r <= y < top r + height r.

End Region.

(** What one [Tesseract.recognize] call resolves to: [data.text] and
    [data.confidence]. *)
Record Observation : Type := mkObs { text : list N; confidence : spec_float }.

(** The outside world of [processImage]:
    - [decode]: [fs.readFileSync] followed by [sharp(imageBuffer).metadata()],
      the width and the height, or [None] when either throws;
    - [recognize parameter coordinates]: the three preprocessing chains and
      the three OCR calls of one quadrant, awaited together; the three results
      in the order of the strategies, or [None] when any of them throws. *)
Record Env : Type := mkEnv {
  decode : option (Z * Z);
  recognize : string -> Region.t -> option (list Observation)
}.

Definition pH : string := "pH".
Definition temperature : string := "temperature".
Definition dissolvedOxygen : string := "dissolvedOxygen".
Definition salinity : string := "salinity".

(** [n >= lo && n <= hi] *)
Definition inRange (lo hi : Z) (n : spec_float) : bool :=
  Num.geb n (Num.ofZ lo) && Num.leb n (Num.ofZ hi).

(** [xs.length > 0 ? xs[0] : validNumbers[0]], where [xs] is
    [validNumbers.filter(n => n >= lo && n <= hi)] and [first] is
    [validNumbers[0]]. *)
Definition preferInRange (lo hi : Z) (validNumbers : list spec_float)
    (first : spec_float) : spec_float :=
  match List.filter (inRange lo hi) validNumbers with
  | x :: _ => x
  | [] => first
  end.

(** The [switch (parameter)] of [extractNumericValue]. *)
Definition selectValue (parameter : string) (validNumbers : list spec_float)
    (first : spec_float) : spec_float :=
  if String.eqb parameter pH then preferInRange 0 14 validNumbers first
  else if String.eqb parameter temperature
       then preferInRange (-10) 60 validNumbers first
  else if String.eqb parameter dissolvedOxygen
       then preferInRange 0 25 validNumbers first
  else if String.eqb parameter salinity
       then preferInRange 0 50 validNumbers first
  else first.

(** [numbers.map(n => parseFloat(n)).filter(n => !isNaN(n))] *)
Definition validNumbersOf (numbers : list (list N)) : list spec_float :=
  List.filter (fun n => negb (Num.isNaN n)) (map Num.parseFloat numbers).

Definition extractNumericValue (text : list N) (parameter : string) : string :=
  let cleanText := trim (replaceNoise text) in
  match matchAll cleanText with
  | None | Some [] => "0.00"
  | Some numbers =>
    let validNumbers := validNumbersOf numbers in
    match validNumbers with
    | [] => "0.00"
    | first :: _ => Num.toFixed 2 (selectValue parameter validNumbers first)
    end
  end.

(** One turn of the loop over the OCR results; the state is
    [(bestValue, bestConfidence)]. *)
Definition bestStep (parameter : string) (best : string * spec_float)
    (o : Observation) : string * spec_float :=
  let (bestValue, bestConfidence) := best in
  let numericValue := extractNumericValue (text o) parameter in
  if negb (String.eqb numericValue "0.00")
     && Num.gtb (confidence o) bestConfidence
  then (numericValue, confidence o)
  else if String.eqb bestValue "0.00" && negb (String.eqb numericValue "0.00")
  then (numericValue, confidence o)
  else best.

(** The loop, from [bestValue = "0.00"] and [bestConfidence = 0]. *)
Definition selectBest (parameter : string) (ocrResults : list Observation)
    : string * spec_float :=
  fold_left (bestStep parameter) ocrResults ("0.00"%string, S754_zero false).

(** The object [quadrants]; the list is [Object.entries(quadrants)], in the
    order in which the properties are written. *)
Definition quadrants (width height : Z) : list (string * Region.t) :=
  let halfWidth := width / 2 in
  let halfHeight := height / 2 in
  [ (temperature, Region.mk halfWidth 0 halfWidth halfHeight);
    (pH, Region.mk 0 0 halfWidth halfHeight);
    (dissolvedOxygen, Region.mk 0 halfHeight halfWidth halfHeight);
    (salinity, Region.mk halfWidth halfHeight halfWidth halfHeight) ].

(** What the task of one quadrant writes into its property of [results]:
    the best value, or ["0.00"] from the [catch] clause. *)
Definition quadrantValue (env : Env) (q : string * Region.t) : string :=
  match recognize env (fst q) (snd q) with
  | Some ocrResults => fst (selectBest (fst q) ocrResults)
  | None => "0.00"
  end.

(** [results[parameter] = ...] *)
Definition settle (env : Env) (results : gmap string string)
    (q : string * Region.t) : gmap string string :=
  <[fst q := quadrantValue env q]> results.

(** The four tasks run concurrently and each writes its property when it
    finishes; [order] is the order in which they finish. *)
Definition assemble (env : Env) (order : list (string * Region.t))
    : gmap string string :=
  fold_left (settle env) order ∅.

(** [processImage]: [None] is the rejected promise ([throw error]), [Some]
    the object it resolves to; here the tasks finish in the order in which
    they were started. *)
Definition processImage (env : Env) : option (gmap string string) :=
  match decode env with
  | None => None
  | Some (width, height) => Some (assemble env (quadrants width height))
  end.

(** The tokens of an OCR text ([numbers], with [null] read as no token) and
    their values ([validNumbers]). *)
Definition tokensOf (text : list N) : list (list N) :=
  match matchAll (trim (replaceNoise text)) with
  | None => []
  | Some numbers => numbers
  end.

Definition parsedOf (text : list N) : list spec_float :=
  validNumbersOf (tokensOf text).

(** The environment in which the pipeline of [parameter] throws and all
    the rest is as in [env]. *)
Definition failAt (parameter : string) (env : Env) : Env :=
  mkEnv (decode env)
        (fun p c => if String.eqb p parameter then None else recognize env p c).

(** ** The vocabulary of the specification *)

(** The valid range of each Parameter. *)
Definition validRanges : list (string * (Z * Z)) :=
  [ (pH, (0, 14)); (temperature, (-10, 60));
    (dissolvedOxygen, (0, 25)); (salinity, (0, 50)) ].

Definition isDigitChar (c : ascii) : bool :=
  ((48 <=? N_of_ascii c) && (N_of_ascii c <=? 57))%N.

(** A decimal string with exactly [f] fractional digits: an optional minus
    sign, at least one digit, the point, [f] digits. *)
Definition isFixedDecimal (f : nat) (s : string) : bool :=
  let l := list_ascii_of_string s in
  let body := match l with
              | c :: r => if Ascii.eqb c "-" then r else l
              | [] => l
              end in
  let (ip, r) := span isDigitChar body in
  match ip, r with
  | _ :: _, c :: fp =>
    Ascii.eqb c "." && (List.length fp =? f)%nat && forallb isDigitChar fp
  | _, _ => false
  end.

(** Cross-variant selection in the words of the specification: one
    Candidate per variant, which is "no value" ([None]) exactly when no token
    survives; the Candidate of highest confidence among those that are not
    "no value" wins, the first one on a tie; the winner is rendered with two
    fractional digits, and [None] means that the Parameter resolves to
    "no value". *)
Definition specCandidate (parameter : string) (o : Observation)
    : option (spec_float * spec_float) :=
  match parsedOf (text o) with
  | [] => None
  | first :: _ =>
    Some (selectValue parameter (parsedOf (text o)) first, confidence o)
  end.

Definition specBetter (best c : option (spec_float * spec_float))
    : option (spec_float * spec_float) :=
  match c, best with
  | None, _ => best
  | Some _, None => c
  | Some (_, conf), Some (_, bestConf) =>
    if Num.gtb conf bestConf then c else best
  end.

Definition specSelect (parameter : string) (obs : list Observation)
    : option string :=
  option_map (fun c => Num.toFixed 2 (fst c))
    (fold_left specBetter (map (specCandidate parameter) obs) None).

(** What the pattern [-?\d+\.?\d*] describes: an optional minus sign, at
    least one digit, an optional point, digits. *)
Definition isMatch (tok : list N) : Prop :=
  exists sign ds dot fs,
    tok = sign ++ ds ++ dot ++ fs /\
    (sign = [] \/ sign = [cu_minus]) /\
    ds <> [] /\ forallb isDigit ds = true /\
    (dot = [] \/ dot = [cu_dot]) /\ forallb isDigit fs = true.

(** A token is an optional minus sign followed by a digit and more. *)
Definition tokenShape (tok : list N) : Prop :=
  exists d r, isDigit d = true /\ (tok = d :: r \/ tok = cu_minus :: d :: r).

(** What the selection loop takes for a reading: a variant whose extracted
    string is not ["0.00"]. *)
Definition isCandidate (parameter : string) (o : Observation) : bool :=
  negb (String.eqb (extractNumericValue (text o) parameter) "0.00").

(** The order of the Numbers that are not NaN, as a lexicographic order on
    integer triples: sign class, then exponent, then mantissa. *)
Definition rank (x : spec_float) : Z * Z * Z :=
  match x with
  | S754_nan | S754_zero _ => (0, 0, 0)
  | S754_infinity true => (-2, 0, 0)
  | S754_infinity false => (2, 0, 0)
  | S754_finite true m e => (-1, - e, - Zpos m)
  | S754_finite false m e => (1, e, Zpos m)
  end.

Definition lexLt (a b : Z * Z * Z) : Prop :=
  let '(a1, a2, a3) := a in
  let '(b1, b2, b3) := b in
  a1 < b1 \/ (a1 = b1 /\ (a2 < b2 \/ (a2 = b2 /\ a3 < b3))).

(** A variant reads zero: it has tokens and the value selected among them
    is [+0] or [-0]. *)
Definition readsZero (parameter : string) (text : list N) : Prop :=
  exists first rest sign,
    parsedOf text = first :: rest /\
    selectValue parameter (first :: rest) first = S754_zero sign.

(** ** Node's [path] module, POSIX flavour

    The script runs on Linux; [path.extname] and [path.basename] are the
    loops of Node's [lib/path.js], which walk the path from its last code
    unit to its first. *)

Module Path.

Definition cu_slash : N := 47%N.

(** [s.slice(start, end)] for arguments that are not negative. *)
Definition slice (s : list N) (start end_ : Z) : list N :=
  firstn (Z.to_nat (end_ - start)) (skipn (Z.to_nat start) s).

(** [for (let i = path.length - 1; i >= 0; --i) { ... }]: [step i code st]
    is one turn of the body on [path[i]], with [true] for [break]; [r] is
    what is left of the path, last code unit first. *)
Fixpoint scanBack {S : Type} (step : Z -> N -> S -> S * bool)
    (r : list N) (i : Z) (st : S) : S :=
  match r with
  | [] => st
  | code :: r' =>
    let (st', stop) := step i code st in
    if stop then st' else scanBack step r' (i - 1) st'
  end.

(** The same turns when none of them breaks, and [None] otherwise. *)
Fixpoint scanThrough {S : Type} (step : Z -> N -> S -> S * bool)
    (r : list N) (i : Z) (st : S) : option S :=
  match r with
  | [] => Some st
  | code :: r' =>
    let (st', stop) := step i code st in
    if stop then None else scanThrough step r' (i - 1) st'
  end.

Definition forDown {S : Type} (step : Z -> N -> S -> S * bool)
    (path : list N) (st : S) : S :=
  scanBack step (rev path) (Z.of_nat (List.length path) - 1) st.

(** The variables of [extname]. *)
Record ExtState : Set := mkExt {
  startDot : Z; startPart : Z; extEnd : Z;
  extMatchedSlash : bool; preDotState : Z
}.

Definition extStep (i : Z) (code : N) (st : ExtState) : ExtState * bool :=
  let '(mkExt sd sp en ms pd) := st in
  if (code =? cu_slash)%N then
    if negb ms then (mkExt sd (i + 1) en ms pd, true) else (st, false)
  else
    let '(en1, ms1) := if en =? -1 then (i + 1, false) else (en, ms) in
    if (code =? cu_dot)%N then
      if sd =? -1 then (mkExt i sp en1 ms1 pd, false)
      else if negb (pd =? 1) then (mkExt sd sp en1 ms1 1, false)
      else (mkExt sd sp en1 ms1 pd, false)
    else if negb (sd =? -1) then (mkExt sd sp en1 ms1 (-1), false)
    else (mkExt sd sp en1 ms1 pd, false).

(** [path.extname(path)] *)
Definition extname (path : list N) : list N :=
  let '(mkExt sd sp en _ pd) :=
    forDown extStep path (mkExt (-1) 0 (-1) true 0) in
  if (sd =? -1) || (en =? -1) || (pd =? 0)
     || ((pd =? 1) && (sd =? en - 1) && (sd =? sp + 1))
  then []
  else slice path sd en.

(** The variables of [basename]: [extIdx] and [firstNonSlashEnd] are those
    of the loop that also strips a suffix. *)
Record BaseState : Set := mkBase {
  baseStart : Z; baseEnd : Z; baseMatchedSlash : bool;
  extIdx : Z; firstNonSlashEnd : Z
}.

(** The body of the loop of [basename] when a suffix is given. *)
Definition suffixStep (suffix : list N) (i : Z) (code : N) (st : BaseState)
    : BaseState * bool :=
  let '(mkBase start en ms ei fn) := st in
  if (code =? cu_slash)%N then
    if negb ms then (mkBase (i + 1) en ms ei fn, true) else (st, false)
  else
    let '(ms1, fn1) := if fn =? -1 then (false, i + 1) else (ms, fn) in
    if 0 <=? ei then
      if (code =? nth (Z.to_nat ei) suffix 0%N)%N then
        if ei - 1 =? -1 then (mkBase start i ms1 (ei - 1) fn1, false)
        else (mkBase start en ms1 (ei - 1) fn1, false)
      else (mkBase start fn1 ms1 (-1) fn1, false)
    else (mkBase start en ms1 ei fn1, false).

(** The body of the loop of [basename] without a suffix. *)
Definition plainStep (i : Z) (code : N) (st : BaseState) : BaseState * bool :=
  let '(mkBase start en ms ei fn) := st in
  if (code =? cu_slash)%N then
    if negb ms then (mkBase (i + 1) en ms ei fn, true) else (st, false)
  else if en =? -1 then (mkBase start (i + 1) false ei fn, false)
  else (st, false).

(** [a === b] on strings *)
Fixpoint sameString (a b : list N) : bool :=
  match a, b with
  | [], [] => true
  | x :: a', y :: b' => (x =? y)%N && sameString a' b'
  | _, _ => false
  end.

(** [path.basename(path, suffix)] *)
Definition basename (path suffix : list N) : list N :=
  if (0 <? List.length suffix)%nat
     && (List.length suffix <=? List.length path)%nat
  then
    if sameString suffix path then []
    else
      let '(mkBase start en _ _ fn) :=
        forDown (suffixStep suffix) path
          (mkBase 0 (-1) true (Z.of_nat (List.length suffix) - 1) (-1)) in
      let en' := if start =? en then fn
                 else if en =? -1 then Z.of_nat (List.length path)
                 else en in
      slice path start en'
  else
    let '(mkBase start en _ _ _) :=
      forDown plainStep path (mkBase 0 (-1) true (-1) (-1)) in
    if en =? -1 then [] else slice path start en.

End Path.

(** ** [extractUnitId] *)

Definition cu_underscore : N := 95%N.

(** [s.split(sep)] for a separator of one code unit. *)
Fixpoint split (sep : N) (s : list N) : list (list N) :=
  match s with
  | [] => [[]]
  | c :: r =>
    if (c =? sep)%N then [] :: split sep r
    else match split sep r with
         | p :: ps => (c :: p) :: ps
         | [] => [[c]]
         end
  end.

(** A code unit that the letter matches under the flag [i]: only the two
    ASCII cases (a code unit from 128 on is never folded onto an ASCII
    letter). *)
Definition isLetter (upper : N) (c : N) : bool :=
  ((c =? upper) || (c =? upper + 32))%N.

(** One attempt of [/unit[_\s]*(\d+)/i] at the start of [s]: the text of
    the group. *)
Definition unitMatchAt (s : list N) : option (list N) :=
  match s with
  | u :: n :: i :: t :: r =>
    if isLetter 85 u && isLetter 78 n && isLetter 73 i && isLetter 84 t then
      let r1 :=
        snd (span (fun c => (c =? cu_underscore)%N || isSpace c) r) in
      match fst (span isDigit r1) with
      | [] => None
      | ds => Some ds
      end
    else None
  | _ => None
  end.

(** [basename.match(/unit[_\s]*(\d+)/i)]: the group of the leftmost match,
    [None] for [null]. *)
Fixpoint unitMatch (s : list N) : option (list N) :=
  match unitMatchAt s with
  | Some ds => Some ds
  | None =>
    match s with
    | [] => None
    | _ :: r => unitMatch r
    end
  end.

(** What [extractUnitId] makes of the basename. *)
Definition unitIdOf (basename : list N) : list N :=
  match split cu_underscore basename with
  | p0 :: p1 :: _ => p0 ++ cu_underscore :: p1
  | _ =>
    match unitMatch basename with
    | Some ds => utf16 "unit_" ++ ds
    | None => utf16 "unit_1"
    end
  end.

Definition extractUnitId (filename : list N) : list N :=
  unitIdOf (Path.basename filename (Path.extname filename)).

(** The code unit [c] does not occur in [l]. *)
Definition noCode (c : N) (l : list N) : Prop :=
  forallb (fun x => negb (x =? c)%N) l = true.

(** What may stand before the last component of a path: nothing, or
    something that ends with a slash. *)
Definition isDirPrefix (dir : list N) : Prop :=
  dir = [] \/ exists d, dir = d ++ [Path.cu_slash].

(** [tail] is what [path.extname] takes off a last component that starts
    with [stem]: nothing when [stem] has no dot, and else a dot and an
    extension without dots (the component [..] has no extension). *)
Definition isExtension (stem tail : list N) : Prop :=
  (tail = [] /\ noCode cu_dot stem) \/
  (exists ext, tail = cu_dot :: ext /\
               noCode Path.cu_slash ext /\ noCode cu_dot ext /\
               ~ (stem = [cu_dot] /\ ext = [])).

(** ** [initFirebase], [updateFirebase] and [main] *)

(** A value that is written to the database: a string, or the placeholder
    [admin.database.ServerValue.TIMESTAMP]. *)
Inductive DbValue : Type :=
| DbString (s : string)
| DbServerTimestamp.

Definition lastUpdated : string := "lastUpdated".
Definition processedAt : string := "processedAt".

(** [{ ...data, lastUpdated: timestamp, processedAt: ...TIMESTAMP }] *)
Definition dataWithTimestamp (data : gmap string string) (timestamp : string)
    : gmap string DbValue :=
  <[processedAt := DbServerTimestamp]>
    (<[lastUpdated := DbString timestamp]> (DbString <$> data)).

(** The calls that reach the Firebase SDK. *)
Inductive Call : Type :=
| CallInitializeApp
| CallUpdate (unitId : list N) (payload : gmap string DbValue).

(** The outside world of [main]:
    - [argv2]: [process.argv[2]], [None] for [undefined];
    - [existsSync]: [fs.existsSync];
    - [appsLength]: [admin.apps.length] when the script starts;
    - [serviceAccountParses]: whether [JSON.parse] of the environment
      variable returns (it throws on a missing or malformed one);
    - [certReturns]: whether [admin.credential.cert(serviceAccount)], an
      argument of the call of [initializeApp], returns;
    - [initializeAppReturns]: whether [admin.initializeApp] returns;
    - [imageEnv imagePath]: what the decoder and the OCR engine do with the
      file;
    - [isoNow]: [new Date().toISOString()];
    - [updateResolves]: whether the promise of [ref(unitId).update(...)]
      resolves. *)
Record World : Type := mkWorld {
  argv2 : option (list N);
  existsSync : list N -> bool;
  appsLength : nat;
  serviceAccountParses : bool;
  certReturns : bool;
  initializeAppReturns : bool;
  imageEnv : list N -> Env;
  isoNow : string;
  updateResolves : list N -> gmap string DbValue -> bool
}.

(** [initFirebase] with [apps] registered apps: the number of apps
    afterwards, or [None] when it throws, and the calls it made
    ([initializeApp] registers one app).  The argument of [initializeApp]
    is evaluated before the call, so the call is not made when
    [admin.credential.cert] throws. *)
Definition initFirebase (w : World) (apps : nat) : option nat * list Call :=
  match apps with
  | O =>
    if serviceAccountParses w then
      if certReturns w then
        if initializeAppReturns w then (Some 1%nat, [CallInitializeApp])
        else (None, [CallInitializeApp])
      else (None, [])
    else (None, [])
  | S _ => (Some apps, [])
  end.

(** [updateFirebase]: whether it resolves (it rethrows the error of the
    update), and the call it made. *)
Definition updateFirebase (w : World) (unitId : list N)
    (data : gmap string string) : bool * list Call :=
  let payload := dataWithTimestamp data (isoNow w) in
  (updateResolves w unitId payload, [CallUpdate unitId payload]).

(** What a run of the script does: the argument of [process.exit] ([None]
    when the script runs to its end) and the calls to the SDK, in order. *)
Record Run : Type := mkRun { exitCode : option Z; calls : list Call }.

Definition main (w : World) : Run :=
  match argv2 w with
  | None | Some [] => mkRun (Some 1) []
  | Some imagePath =>
    if negb (existsSync w imagePath) then mkRun (Some 1) []
    else
      match initFirebase w (appsLength w) with
      | (None, cs) => mkRun (Some 1) cs
      | (Some _, cs) =>
        let unitId := extractUnitId imagePath in
        match processImage (imageEnv w imagePath) with
        | None => mkRun (Some 1) cs
        | Some results =>
          let (resolved, cs') := updateFirebase w unitId results in
          mkRun (if resolved then None else Some 1) (cs ++ cs')
        end
      end
  end.

(** The calls of a run that write to the database. *)
Definition isUpdate (c : Call) : bool :=
  match c with CallUpdate _ _ => true | CallInitializeApp => false end.

(** ** The decoder

    The script does not look at the width and the height it destructures
    from the metadata (lines 100 to 106); whether a size is acceptable is
    settled by the decoder, [sharp], which is no part of the repository.
    A file is seen through what it declares. *)
Inductive ImageFile : Set :=
| NotAnImage
| Declares (width height : Z).

(** What the script relies on in [fs.readFileSync] followed by
    [sharp(imageBuffer).metadata()]: the size that is reported is the one
    the file declares, and it is positive; for any other file the promise
    is rejected. *)
Definition decoderContract (metadata : ImageFile -> option (Z * Z)) : Prop :=
  forall f w h,
    metadata f = Some (w, h) -> f = Declares w h /\ 0 < w /\ 0 < h.

(** The decoder that accepts every file with a positive size. *)
Definition metadataOf (f : ImageFile) : option (Z * Z) :=
  match f with
  | NotAnImage => None
  | Declares w h => if (0 <? w) && (0 <? h) then Some (w, h) else None
  end.

(** ** The earlier variant of [extractNumericValue]

    The script of the previous revision, which runs one OCR pass per
    quadrant, extracts with the pattern [/\d+\.?\d*/g], compares
    [parseFloat] of the tokens with the same ranges and returns the chosen
    token itself, or the empty string. *)

Definition legacyMatchAt (s : list N) : option (list N * list N) :=
  let (ds, r1) := span isDigit s in
  match ds with
  | [] => None
  | _ :: _ =>
    let (dot, r2) :=
      match r1 with
      | c :: r => if (c =? cu_dot)%N then ([c], r) else ([], r1)
      | [] => ([], r1)
      end in
    let (fs, r3) := span isDigit r2 in
    Some (ds ++ dot ++ fs, r3)
  end.

Fixpoint legacyMatchAllFrom (fuel : nat) (s : list N) : list (list N) :=
  match fuel with
  | O => []
  | S fuel' =>
    match s with
    | [] => []
    | _ :: s' =>
      match legacyMatchAt s with
      | Some (tok, rest) => tok :: legacyMatchAllFrom fuel' rest
      | None => legacyMatchAllFrom fuel' s'
      end
    end
  end.

Definition legacyMatchAll (s : list N) : option (list (list N)) :=
  match legacyMatchAllFrom (List.length s) s with
  | [] => None
  | toks => Some toks
  end.

(** [xs.length > 0 ? xs[0] : numbers[0]], where [xs] is [numbers.filter(n =>
    { const val = parseFloat(n); return val >= lo && val <= hi; })]. *)
Definition legacyPrefer (lo hi : Z) (numbers : list (list N))
    (first : list N) : list N :=
  match List.filter (fun n => inRange lo hi (Num.parseFloat n)) numbers with
  | x :: _ => x
  | [] => first
  end.

Definition legacySelect (parameter : string) (numbers : list (list N))
    (first : list N) : list N :=
  if String.eqb parameter pH then legacyPrefer 0 14 numbers first
  else if String.eqb parameter temperature
       then legacyPrefer (-10) 60 numbers first
  else if String.eqb parameter dissolvedOxygen
       then legacyPrefer 0 25 numbers first
  else if String.eqb parameter salinity
       then legacyPrefer 0 50 numbers first
  else first.

Definition legacyExtractNumericValue (text : list N) (parameter : string)
    : list N :=
  let cleanText := trim (replaceNoise text) in
  match legacyMatchAll cleanText with
  | None | Some [] => []
  | Some (first :: rest) => legacySelect parameter (first :: rest) first
  end.

(** ** Separators

    A code unit that neither pattern of [extractNumericValue] can take for
    part of a number: anything but a digit, the point and the minus sign. *)
Definition isSeparator (c : N) : bool :=
  negb (isDigit c || (c =? cu_dot)%N || (c =? cu_minus)%N).

(** Two texts of the same length that agree at every position, except
    where both have a code unit of the class [sep]. *)
Fixpoint agreeUpTo (sep : N -> bool) (a b : list N) : bool :=
  match a, b with
  | [], [] => true
  | x :: a', y :: b' =>
    ((x =? y)%N || (sep x && sep y)) && agreeUpTo sep a' b'
  | _, _ => false
  end.

(** ** Signs *)

(** The sign bit of a Number; NaN has none. *)
Definition signBit (x : spec_float) : bool :=
  match x with
  | S754_zero s | S754_infinity s | S754_finite s _ _ => s
  | S754_nan => false
  end.

(** The string starts with a minus sign. *)
Definition startsWithMinus (s : string) : bool :=
  match s with
  | String c _ => Ascii.eqb c "-"
  | EmptyString => false
  end.

(** ** Sample runs *)

Example matchAll_examples :
  matchAll (utf16 "pH 7.4 -3.-5..6 12.") =
    Some [utf16 "7.4"; utf16 "-3."; utf16 "-5."; utf16 "6"; utf16 "12."] /\
  matchAll (utf16 "--5 - 6") = Some [utf16 "-5"; utf16 "6"] /\
  matchAll (utf16 "- . -.") = None.
Proof. vm_compute. repeat split. Qed.

Example inRange_examples :
  let within lo hi t := inRange lo hi (Num.parseFloat (utf16 t)) in
  within 0 14 "14" = true /\ within 0 14 "14.000001" = false /\
  within 0 14 "14.0000000000000000001" = true /\
  within 0 14 "-0" = true /\ within 0 14 "-0.0001" = false /\
  within (-10) 60 "-10" = true /\ within (-10) 60 "-10.5" = false /\
  within 0 25 "1e309" = false /\ inRange 0 50 S754_nan = false.
Proof. vm_compute. repeat split. Qed.

(** The values agree with what a JavaScript engine computes. *)
Example parseFloat_examples :
  Num.parseFloat (utf16 "7.4") = S754_finite false 8331659310635418 (-50) /\
  Num.parseFloat (utf16 "-3.") = S754_finite true 6755399441055744 (-51) /\
  Num.parseFloat (utf16 " .1x") = S754_finite false 7205759403792794 (-56) /\
  Num.parseFloat (utf16 "1e21") = S754_finite false 7629394531250000 17 /\
  Num.parseFloat (utf16 "5e-324") = S754_finite false 1 (-1074) /\
  Num.parseFloat (utf16 "2e-324") = S754_zero false /\
  Num.parseFloat (utf16 "-0") = S754_zero true /\
  Num.parseFloat (utf16 "1.7976931348623157e308") =
    S754_finite false 9007199254740991 971 /\
  Num.parseFloat (utf16 "1e309") = S754_infinity false /\
  Num.parseFloat (utf16 "-Infinityx") = S754_infinity true /\
  Num.parseFloat (utf16 "-") = S754_nan /\
  Num.parseFloat (utf16 ".") = S754_nan /\
  Num.parseFloat (utf16 "14.0000000000000000001") = Num.ofZ 14.
Proof. vm_compute. repeat split. Qed.

Example toFixed_examples :
  let fx f t := Num.toFixed f (Num.parseFloat (utf16 t)) in
  fx 2%nat "7.4" = "7.40" /\ fx 2%nat "143" = "143.00" /\
  fx 2%nat "1.005" = "1.00" /\ fx 2%nat "8.345" = "8.35" /\
  fx 2%nat "10.235" = "10.23" /\ fx 1%nat "1.45" = "1.4" /\
  fx 0%nat "2.5" = "3" /\ fx 0%nat "-2.5" = "-3" /\
  fx 2%nat "-0.001" = "-0.00" /\ fx 2%nat "-0" = "0.00" /\
  fx 2%nat ".005" = "0.01" /\ fx 2%nat "0.000001" = "0.00" /\
  fx 2%nat "123456789012345680000" = "123456789012345683968.00" /\
  fx 2%nat "999999999999999999999" = "1e+21" /\
  fx 2%nat "1000000000000000000000" = "1e+21" /\
  fx 2%nat "-1500000000000000000000" = "-1.5e+21" /\
  fx 2%nat "100000000000000000000000" = "1e+23" /\
  fx 2%nat "123456789012345678901234567890" = "1.2345678901234568e+29" /\
  fx 2%nat "1e309" = "Infinity" /\ fx 2%nat "x" = "NaN".
Proof. vm_compute. repeat split. Qed.

Example extract_examples :
  extractNumericValue (utf16 "pH 7.4") pH = "7.40"%string /\
  extractNumericValue (utf16 "143") pH = "143.00"%string /\
  extractNumericValue (utf16 "143 7") pH = "7.00"%string /\
  extractNumericValue (utf16 "-3.0 C") temperature = "-3.00"%string /\
  extractNumericValue (utf16 "-3.0") pH = "-3.00"%string /\
  extractNumericValue (utf16 "no digits - .") pH = "0.00"%string /\
  extractNumericValue (utf16 "0") pH = "0.00"%string.
Proof. vm_compute. repeat split. Qed.

(** ** Scanning: texts without digits, the shape of a token *)

Section Scan.

Lemma span_head_false {A : Type} (p : A -> bool) (c : A) (r : list A) :
  p c = false -> span p (c :: r) = ([], c :: r).
Proof. intros H. simpl. now rewrite H. Qed.

Lemma span_length {A : Type} (p : A -> bool) (s : list A) :
  (List.length (fst (span p s)) + List.length (snd (span p s)) =
   List.length s)%nat.
Proof.
  induction s as [|c r IH]; simpl; [reflexivity|].
  destruct (p c); simpl; [|reflexivity].
  destruct (span p r) as [a b]; simpl in *. lia.
Qed.

Lemma span_forall {A : Type} (p : A -> bool) (s : list A) :
  forallb p (fst (span p s)) = true.
Proof.
  induction s as [|c r IH]; simpl; [reflexivity|].
  destruct (p c) eqn:E; simpl; [|reflexivity].
  destruct (span p r) as [a b]; simpl in *. now rewrite E.
Qed.

(** What [span] returns on digits followed by something that is not one. *)
Lemma span_app {A : Type} (p : A -> bool) (a r : list A) :
  forallb p a = true ->
  match r with [] => True | c :: _ => p c = false end ->
  span p (a ++ r) = (a, r).
Proof.
  intros Ha Hr. induction a as [|c a IH]; simpl in *.
  - destruct r as [|c r]; [reflexivity|]. simpl. now rewrite Hr.
  - apply andb_prop in Ha as [Hc Ha]. rewrite Hc, (IH Ha). reflexivity.
Qed.

Lemma isDigit_minus (d : N) :
  isDigit d = true -> (d =? cu_minus)%N = false.
Proof.
  unfold isDigit, cu_minus. intros H. apply andb_prop in H as [H1 _].
  apply N.leb_le in H1. apply N.eqb_neq. lia.
Qed.

Lemma matchAt_no_digit (s : list N) :
  existsb isDigit s = false -> matchAt s = None.
Proof.
  intros H. unfold matchAt.
  destruct s as [|c r]; [reflexivity|].
  simpl in H. apply orb_false_elim in H as [Hc Hr].
  destruct (c =? cu_minus)%N.
  - destruct r as [|d r']; [reflexivity|].
    simpl in Hr. apply orb_false_elim in Hr as [Hd _].
    now rewrite (span_head_false _ _ _ Hd).
  - now rewrite (span_head_false _ _ _ Hc).
Qed.

Lemma matchAllFrom_no_digit (fuel : nat) (s : list N) :
  existsb isDigit s = false -> matchAllFrom fuel s = [].
Proof.
  revert s. induction fuel as [|fuel IH]; intros s H; [reflexivity|].
  destruct s as [|c r]; [reflexivity|].
  cbn [matchAllFrom]. rewrite (matchAt_no_digit _ H).
  apply IH. simpl in H. now apply orb_false_elim in H as [_ Hr].
Qed.

Lemma replaceNoise_digits (t : list N) :
  existsb isDigit (replaceNoise t) = existsb isDigit t.
Proof.
  unfold replaceNoise. induction t as [|c r IH]; simpl; [reflexivity|].
  rewrite IH. f_equal.
  unfold isNoise. destruct (isDigit c) eqn:E; simpl; [exact E|].
  destruct (_ || _ || _); simpl; [exact E| reflexivity].
Qed.

Lemma dropWhile_no (p q : N -> bool) (s : list N) :
  existsb p s = false -> existsb p (dropWhile q s) = false.
Proof.
  induction s as [|c r IH]; simpl; [reflexivity|].
  intros H. destruct (q c); [|exact H].
  apply IH. now apply orb_false_elim in H as [_ Hr].
Qed.

Lemma existsb_rev_no (p : N -> bool) (s : list N) :
  existsb p s = false -> existsb p (rev s) = false.
Proof.
  induction s as [|c r IH]; simpl; [reflexivity|].
  intros H. apply orb_false_elim in H as [Hc Hr].
  rewrite existsb_app, (IH Hr). simpl. now rewrite Hc.
Qed.

Lemma trim_no_digit (s : list N) :
  existsb isDigit s = false -> existsb isDigit (trim s) = false.
Proof.
  intros H. unfold trim. apply existsb_rev_no, dropWhile_no.
  now apply existsb_rev_no, dropWhile_no.
Qed.

(** A text without digits has no token. *)
Lemma tokensOf_no_digit (text : list N) :
  existsb isDigit text = false -> tokensOf text = [].
Proof.
  intros H. unfold tokensOf, matchAll.
  rewrite matchAllFrom_no_digit; [reflexivity|].
  apply trim_no_digit. now rewrite replaceNoise_digits.
Qed.

Lemma span_eq {A : Type} (p : A -> bool) (s : list A) :
  s = fst (span p s) ++ snd (span p s).
Proof.
  induction s as [|c r IH]; simpl; [reflexivity|].
  destruct (p c); simpl; [|reflexivity].
  destruct (span p r) as [a b]; simpl in *. now f_equal.
Qed.

(** An attempt that succeeds splits the text into a match of the pattern
    and the rest. *)
Lemma matchAt_sound (s tok rest : list N) :
  matchAt s = Some (tok, rest) -> s = tok ++ rest /\ isMatch tok.
Proof.
  unfold matchAt. intros H.
  set (sr := match s with
             | c :: r => if (c =? cu_minus)%N then ([c], r) else ([], s)
             | [] => ([], s)
             end) in H.
  assert (Hsr : s = fst sr ++ snd sr /\
                (fst sr = [] \/ fst sr = [cu_minus])).
  { subst sr. destruct s as [|c r]; [now split; [|left]|].
    destruct (c =? cu_minus)%N eqn:E; [|now split; [|left]].
    apply N.eqb_eq in E. subst c. now split; [|right]. }
  destruct sr as [sign r0]. simpl in Hsr. destruct Hsr as [Hs Hsign].
  pose proof (span_eq isDigit r0) as E1.
  pose proof (span_forall isDigit r0) as F1.
  destruct (span isDigit r0) as [ds r1]. simpl in E1, F1.
  destruct ds as [|d ds]; [discriminate|].
  set (dr := match r1 with
             | c :: r => if (c =? cu_dot)%N then ([c], r) else ([], r1)
             | [] => ([], r1)
             end) in H.
  assert (Hdr : r1 = fst dr ++ snd dr /\ (fst dr = [] \/ fst dr = [cu_dot])).
  { subst dr. destruct r1 as [|c r]; [now split; [|left]|].
    destruct (c =? cu_dot)%N eqn:E; [|now split; [|left]].
    apply N.eqb_eq in E. subst c. now split; [|right]. }
  destruct dr as [dot r2]. simpl in Hdr. destruct Hdr as [Hr1 Hdot].
  pose proof (span_eq isDigit r2) as E2.
  pose proof (span_forall isDigit r2) as F2.
  destruct (span isDigit r2) as [fs r3]. simpl in E2, F2.
  injection H as <- <-. split.
  - rewrite Hs, E1, Hr1, E2.
    repeat (rewrite <- app_assoc || rewrite <- app_comm_cons).
    reflexivity.
  - exists sign, (d :: ds), dot, fs. repeat split; try assumption.
    discriminate.
Qed.

(** An attempt fails only where no match of the pattern starts. *)
Lemma matchAt_complete (s tok rest : list N) :
  s = tok ++ rest -> isMatch tok -> matchAt s <> None.
Proof.
  intros -> (sign & ds & dot & fs & -> & Hsign & Hds & Fds & _ & _).
  destruct ds as [|d ds]; [contradiction|].
  simpl in Fds. apply andb_prop in Fds as [Hd _].
  pose proof (isDigit_minus d Hd) as Hm.
  unfold matchAt.
  destruct Hsign as [-> | ->]; cbn [app].
  - rewrite Hm. cbn [span]. rewrite Hd.
    destruct (span isDigit _) as [a b].
    destruct (match b with [] => _ | c :: r => _ end) as [dot' r2].
    now destruct (span isDigit r2).
  - rewrite N.eqb_refl. cbn [span]. rewrite Hd.
    destruct (span isDigit _) as [a b].
    destruct (match b with [] => _ | c :: r => _ end) as [dot' r2].
    now destruct (span isDigit r2).
Qed.

Lemma span_stop {A : Type} (p : A -> bool) (s : list A) :
  match snd (span p s) with [] => True | c :: _ => p c = false end.
Proof.
  induction s as [|c r IH]; simpl; [exact I|].
  destruct (p c) eqn:E; simpl; [|exact E].
  now destruct (span p r).
Qed.

(** The match is greedy: no digit follows it. *)
Lemma matchAt_greedy (s tok rest : list N) :
  matchAt s = Some (tok, rest) ->
  match rest with [] => True | c :: _ => isDigit c = false end.
Proof.
  unfold matchAt.
  destruct (match s with [] => _ | c :: r => _ end) as [sign r0].
  destruct (span isDigit r0) as [[|d ds] r1]; [discriminate|].
  destruct (match r1 with [] => _ | c :: r => _ end) as [dot r2].
  pose proof (span_stop isDigit r2) as H.
  destruct (span isDigit r2) as [fs r3]. simpl in H.
  now intros [= <- <-].
Qed.

Lemma matchAt_shape (s tok rest : list N) :
  matchAt s = Some (tok, rest) ->
  tokenShape tok /\ (List.length rest < List.length s)%nat.
Proof.
  unfold matchAt. intros H.
  set (sr := match s with
             | c :: r => if (c =? cu_minus)%N then ([c], r) else ([], s)
             | [] => ([], s)
             end) in H.
  assert (Hsr : (fst sr = [] /\ snd sr = s) \/
                (fst sr = [cu_minus] /\ s = cu_minus :: snd sr)).
  { subst sr. destruct s as [|c r]; [now left|].
    destruct (c =? cu_minus)%N eqn:E; [right|now left].
    apply N.eqb_eq in E. now subst c. }
  destruct sr as [sign r0]. simpl in Hsr.
  pose proof (span_length isDigit r0) as L1.
  pose proof (span_forall isDigit r0) as F1.
  destruct (span isDigit r0) as [ds r1]. simpl in L1, F1.
  destruct ds as [|d ds]; [discriminate|].
  set (dr := match r1 with
             | c :: r => if (c =? cu_dot)%N then ([c], r) else ([], r1)
             | [] => ([], r1)
             end) in H.
  assert (Hdr : (List.length (snd dr) <= List.length r1)%nat).
  { subst dr. destruct r1 as [|c r]; simpl; [lia|].
    destruct (c =? cu_dot)%N; simpl; lia. }
  destruct dr as [dot r2]. simpl in Hdr.
  pose proof (span_length isDigit r2) as L2.
  destruct (span isDigit r2) as [fs r3]. simpl in L2.
  injection H as <- <-.
  simpl in F1. apply andb_prop in F1 as [Fd _]. simpl in L1.
  split.
  - exists d, (ds ++ dot ++ fs). split; [exact Fd|].
    destruct Hsr as [[-> _]|[-> _]]; [left|right]; reflexivity.
  - destruct Hsr as [[_ ->]|[_ ->]]; simpl; lia.
Qed.

Lemma matchAllFrom_shape (fuel : nat) (s : list N) :
  List.Forall tokenShape (matchAllFrom fuel s).
Proof.
  revert s. induction fuel as [|fuel IH]; intros s; [constructor|].
  destruct s as [|c r]; [constructor|].
  cbn [matchAllFrom].
  destruct (matchAt (c :: r)) as [[tok rest]|] eqn:E; [|apply IH].
  constructor; [|apply IH]. now apply matchAt_shape in E.
Qed.

(** The scan never stops for lack of fuel: more than the length of the
    text changes nothing. *)
Lemma matchAllFrom_enough (fuel : nat) (s : list N) :
  (List.length s <= fuel)%nat ->
  matchAllFrom fuel s = matchAllFrom (List.length s) s.
Proof.
  revert fuel.
  induction s as [s IH] using (induction_ltof1 _ (@List.length N)).
  unfold ltof in IH. intros fuel Hf.
  destruct s as [|c r]; [now destruct fuel|].
  destruct fuel as [|fuel]; [simpl in Hf; lia|].
  cbn [matchAllFrom List.length]. simpl in Hf.
  destruct (matchAt (c :: r)) as [[tok rest]|] eqn:E.
  - apply matchAt_shape in E as [_ L]. simpl in L.
    rewrite (IH rest) by (simpl; lia).
    now rewrite (IH rest L (List.length r)) by lia.
  - rewrite (IH r) by (simpl; lia). reflexivity.
Qed.

Lemma tokensOf_shape (text : list N) : List.Forall tokenShape (tokensOf text).
Proof.
  unfold tokensOf, matchAll.
  pose proof (matchAllFrom_shape
                (List.length (trim (replaceNoise text)))
                (trim (replaceNoise text))) as H.
  destruct (matchAllFrom _ _); [constructor| exact H].
Qed.

End Scan.

(** ** Numbers: rounding never produces NaN *)

Section Rounding.

Lemma iter_pos_invariant {A : Type} (P : A -> Prop) (f : A -> A) :
  (forall x, P x -> P (f x)) ->
  forall p x, P x -> P (SpecFloat.iter_pos f p x).
Proof.
  intros Hf. induction p as [p IH|p IH|]; intros x Hx; simpl; auto.
Qed.

Lemma shr_1_nonneg (mrs : shr_record) :
  0 <= shr_m mrs -> 0 <= shr_m (shr_1 mrs).
Proof.
  destruct mrs as [m r s]. simpl.
  destruct m as [|[p|p|]|p]; simpl; lia.
Qed.

Lemma shr_fexp_nonneg (m e : Z) (l : location) :
  0 <= m -> 0 <= shr_m (fst (shr_fexp Num.prec Num.emax m e l)).
Proof.
  intros Hm. unfold shr_fexp, shr.
  assert (H0 : 0 <= shr_m (shr_record_of_loc m l))
    by (destruct l as [|[]]; exact Hm).
  destruct (_ - e) as [|p|p]; simpl; try exact H0.
  now apply iter_pos_invariant; [apply shr_1_nonneg|].
Qed.

Lemma round_nearest_even_nonneg (m : Z) (l : location) :
  0 <= m -> 0 <= round_nearest_even m l.
Proof.
  intros Hm. destruct l as [|[]]; simpl; try lia.
  destruct (Z.even m); lia.
Qed.

Lemma binary_round_aux_not_nan (s : bool) (m e : Z) (l : location) :
  0 <= m -> Num.isNaN (binary_round_aux Num.prec Num.emax s m e l) = false.
Proof.
  intros Hm. unfold binary_round_aux.
  pose proof (shr_fexp_nonneg m e l Hm) as H1.
  destruct (shr_fexp Num.prec Num.emax m e l) as [mrs' e']. simpl in H1.
  pose proof (shr_fexp_nonneg _ e' loc_Exact
                (round_nearest_even_nonneg _ (loc_of_shr_record mrs') H1))
    as H2.
  destruct (shr_fexp _ _ _ e' loc_Exact) as [mrs'' e'']. simpl in H2.
  destruct (shr_m mrs'') as [|p|p]; [reflexivity| |lia].
  now destruct (e'' <=? _).
Qed.

Lemma binary_round_not_nan (s : bool) (m : positive) (e : Z) :
  Num.isNaN (binary_round Num.prec Num.emax s m e) = false.
Proof.
  unfold binary_round. destruct (shl_align _ _ _) as [mz ez].
  now apply binary_round_aux_not_nan.
Qed.

Lemma SFdiv_finite_not_nan (sx sy : bool) (mx my : positive) (ex ey : Z) :
  Num.isNaN (SFdiv Num.prec Num.emax (S754_finite sx mx ex)
                   (S754_finite sy my ey)) = false.
Proof.
  unfold SFdiv, SFdiv_core_binary.
  set (m' := match _ - _ - _ with
             | Z0 => Zpos mx | Zpos _ => Z.shiftl (Zpos mx) _ | Zneg _ => 0
             end).
  assert (Hm' : 0 <= m').
  { subst m'. destruct (_ - _ - _); try lia. now apply Z.shiftl_nonneg. }
  pose proof (Z.div_pos m' (Zpos my) Hm' eq_refl) as Hq.
  unfold Z.div in Hq.
  destruct (Z.div_eucl m' (Zpos my)) as [q r].
  now apply binary_round_aux_not_nan.
Qed.

Lemma ofDecimal_not_nan (neg : bool) (n e10 : Z) :
  Num.isNaN (Num.ofDecimal neg n e10) = false.
Proof.
  unfold Num.ofDecimal. destruct n as [|p|p]; try reflexivity.
  destruct (0 <=? e10).
  - apply binary_round_not_nan.
  - apply SFdiv_finite_not_nan.
Qed.

(** A literal that starts with a digit has a value. *)
Lemma strDecimalValue_digit (neg : bool) (d : N) (r : list N) :
  isDigit d = true -> Num.isNaN (Num.strDecimalValue neg (d :: r)) = false.
Proof.
  intros Hd. unfold Num.strDecimalValue.
  destruct (startsWith _ _); [reflexivity|].
  cbn [span]. rewrite Hd.
  destruct (span isDigit r) as [a r1].
  destruct (match r1 with
            | [] => _
            | c :: r' => _
            end) as [fp r2].
  simpl. apply ofDecimal_not_nan.
Qed.

Lemma isDigit_cases (d : N) :
  isDigit d = true ->
  In d [48; 49; 50; 51; 52; 53; 54; 55; 56; 57]%N.
Proof.
  unfold isDigit. intros H. apply andb_prop in H as [H1 H2].
  apply N.leb_le in H1. apply N.leb_le in H2. simpl.
  assert (d = 48 \/ d = 49 \/ d = 50 \/ d = 51 \/ d = 52 \/ d = 53
          \/ d = 54 \/ d = 55 \/ d = 56 \/ d = 57)%N as Hc by lia.
  intuition auto.
Qed.

Lemma isDigit_facts (d : N) :
  isDigit d = true ->
  isSpace d = false /\ (d =? cu_minus)%N = false /\ (d =? cu_plus)%N = false
  /\ (d =? 73)%N = false.
Proof.
  intros H. apply isDigit_cases in H. simpl in H.
  repeat (destruct H as [<-|H]; [now vm_compute|]). contradiction.
Qed.

Lemma parseFloat_token (tok : list N) :
  tokenShape tok -> Num.isNaN (Num.parseFloat tok) = false.
Proof.
  intros (d & r & Hd & [->| ->]);
    destruct (isDigit_facts d Hd) as (Hs & Hm & Hp & _);
    unfold Num.parseFloat; cbn [dropWhile].
  - rewrite Hs, Hm, Hp. now apply strDecimalValue_digit.
  - replace (isSpace cu_minus) with false by reflexivity.
    rewrite N.eqb_refl. now apply strDecimalValue_digit.
Qed.

End Rounding.

(** ** Comparing confidences *)

Section Order.

Lemma ltb_rank (a b : spec_float) :
  Num.isNaN a = false -> Num.isNaN b = false ->
  (Num.ltb a b = true <-> lexLt (rank a) (rank b)).
Proof.
  intros Ha Hb. unfold Num.ltb, SFltb, SFcompare.
  destruct a as [sa|sa| |sa ma ea], b as [sb|sb| |sb mb eb];
    try discriminate;
    try (destruct sa); try (destruct sb); simpl;
    try (split; [discriminate|lia]); try (split; [lia|reflexivity]);
    try (split; [reflexivity|lia]).
  - change (Pos.compare_cont Eq ma mb) with (Pos.compare ma mb).
    destruct (Z.compare_spec ea eb), (Pos.compare_spec ma mb); simpl;
      split; intros; try discriminate; try reflexivity; lia.
  - change (Pos.compare_cont Eq ma mb) with (Pos.compare ma mb).
    destruct (Z.compare_spec ea eb), (Pos.compare_spec ma mb); simpl;
      split; intros; try discriminate; try reflexivity; lia.
Qed.

Lemma ltb_false_rank (a b : spec_float) :
  Num.isNaN a = false -> Num.isNaN b = false ->
  (Num.ltb a b = false <-> ~ lexLt (rank a) (rank b)).
Proof.
  intros Ha Hb. rewrite <- (ltb_rank a b Ha Hb).
  destruct (Num.ltb a b); split; congruence.
Qed.

Lemma ltb_irrefl (a : spec_float) : Num.ltb a a = false.
Proof.
  destruct (Num.isNaN a) eqn:E.
  - now destruct a.
  - apply ltb_false_rank; try assumption.
    destruct (rank a) as [[a1 a2] a3]. simpl. lia.
Qed.

(** [c <= b < n] gives [c < n]. *)
Lemma ltb_le_lt (b c n : spec_float) :
  Num.isNaN b = false -> Num.isNaN c = false -> Num.isNaN n = false ->
  Num.ltb b c = false -> Num.ltb b n = true -> Num.ltb c n = true.
Proof.
  intros Hb Hc Hn H1 H2.
  apply ltb_false_rank in H1; try assumption.
  apply ltb_rank in H2; try assumption.
  apply ltb_rank; try assumption.
  destruct (rank b) as [[b1 b2] b3], (rank c) as [[c1 c2] c3],
           (rank n) as [[n1 n2] n3].
  simpl in *. lia.
Qed.

Lemma ltb_asym (a b : spec_float) :
  Num.ltb a b = true -> Num.ltb b a = false.
Proof.
  intros H.
  assert (Ha : Num.isNaN a = false)
    by (destruct a, b; try reflexivity; discriminate).
  assert (Hb : Num.isNaN b = false)
    by (destruct a, b; try reflexivity; discriminate).
  apply ltb_rank in H; try assumption.
  apply ltb_false_rank; try assumption.
  destruct (rank a) as [[a1 a2] a3], (rank b) as [[b1 b2] b3].
  simpl in *. lia.
Qed.

End Order.

(** ** The selection loop *)

Section Selection.

Variable parameter : string.

Local Abbreviation value o :=
  (extractNumericValue (text o) parameter) (only parsing).

Lemma bestStep_skip (best : string * spec_float) (o : Observation) :
  isCandidate parameter o = false -> bestStep parameter best o = best.
Proof.
  unfold isCandidate, bestStep. intros H. destruct best as [bv bc].
  rewrite H. cbn [negb andb]. now rewrite andb_false_r.
Qed.

Lemma bestStep_first (bc : spec_float) (o : Observation) :
  isCandidate parameter o = true ->
  bestStep parameter ("0.00"%string, bc) o = (value o, confidence o).
Proof.
  unfold isCandidate, bestStep. intros H. rewrite H. cbn [andb].
  now destruct (Num.gtb _ _).
Qed.

Lemma bestStep_next (best o : Observation) :
  isCandidate parameter best = true ->
  isCandidate parameter o = true ->
  bestStep parameter (value best, confidence best) o =
  if Num.ltb (confidence best) (confidence o)
  then (value o, confidence o) else (value best, confidence best).
Proof.
  unfold isCandidate, bestStep. intros Hb H. rewrite H. cbn [andb].
  unfold Num.gtb, Num.ltb. destruct (SFltb _ _); [reflexivity|].
  apply negb_true_iff in Hb. now rewrite Hb.
Qed.

Lemma selectBest_snoc (l : list Observation) (o : Observation) :
  selectBest parameter (l ++ [o]) =
  bestStep parameter (selectBest parameter l) o.
Proof. unfold selectBest. now rewrite fold_left_app. Qed.

(** The state of the loop after any number of turns: either no variant was
    a candidate and the state is the initial one, or the state is the value
    and the confidence of a candidate [o] at some position [i]; in that case,
    when no confidence is NaN, no candidate has a higher confidence and every
    candidate before [i] has a lower one. *)
Lemma selectBest_invariant (obs : list Observation) :
  (forallb (fun o => negb (isCandidate parameter o)) obs = true /\
   selectBest parameter obs = ("0.00"%string, S754_zero false))
  \/
  (exists i o,
     nth_error obs i = Some o /\ isCandidate parameter o = true /\
     selectBest parameter obs = (value o, confidence o) /\
     (List.Forall (fun o' => Num.isNaN (confidence o') = false) obs ->
      (forall j o', nth_error obs j = Some o' ->
                    isCandidate parameter o' = true ->
                    Num.ltb (confidence o) (confidence o') = false) /\
      (forall j o', (j < i)%nat -> nth_error obs j = Some o' ->
                    isCandidate parameter o' = true ->
                    Num.ltb (confidence o') (confidence o) = true))).
Proof.
  induction obs as [|x l IH] using rev_ind.
  - left. split; reflexivity.
  - rewrite selectBest_snoc.
    destruct (isCandidate parameter x) eqn:Hx.
    + (* the new variant is a candidate *)
      destruct IH as [[Hall Hst]|(i & o & Hi & Ho & Hst & Hmax)].
      * right. exists (List.length l), x. rewrite Hst.
        split; [now rewrite nth_error_app2, Nat.sub_diag by lia|].
        split; [exact Hx|]. split; [now apply bestStep_first|].
        intros _. 
        assert (Hno : forall j o', (j < List.length l)%nat ->
                   nth_error (l ++ [x]) j = Some o' ->
                   isCandidate parameter o' = true -> False).
        { intros j o' Hj Hn Hc. rewrite nth_error_app1 in Hn by exact Hj.
          apply nth_error_In in Hn.
          rewrite forallb_forall in Hall. specialize (Hall o' Hn).
          rewrite Hc in Hall. discriminate. }
        split.
        -- intros j o' Hn Hc.
           destruct (Nat.lt_ge_cases j (List.length l)) as [Hj|Hj];
             [exfalso; eauto|].
           rewrite nth_error_app2 in Hn by exact Hj.
           destruct (j - List.length l)%nat as [|k] eqn:E; simpl in Hn.
           ++ injection Hn as <-. apply ltb_irrefl.
           ++ now destruct k.
        -- intros j o' Hj Hn Hc. exfalso; eauto.
      * rewrite Hst, (bestStep_next o x Ho Hx).
        assert (Hil : (i < List.length l)%nat)
          by (apply nth_error_Some; congruence).
        destruct (Num.ltb (confidence o) (confidence x)) eqn:Hlt.
        -- right. exists (List.length l), x.
           split; [now rewrite nth_error_app2, Nat.sub_diag by lia|].
           split; [exact Hx|]. split; [reflexivity|].
           intros Hnan. apply Forall_app in Hnan as [Hnl Hnx].
           destruct (Hmax Hnl) as [Hge Hbefore].
           assert (Hnx' : Num.isNaN (confidence x) = false)
             by now inversion Hnx.
           assert (Hno' : Num.isNaN (confidence o) = false).
           { rewrite List.Forall_forall in Hnl. apply Hnl.
             eapply nth_error_In; eauto. }
           assert (Hlow : forall j o', (j < List.length l)%nat ->
                     nth_error (l ++ [x]) j = Some o' ->
                     isCandidate parameter o' = true ->
                     Num.ltb (confidence o') (confidence x) = true).
           { intros j o' Hj Hn Hc. rewrite nth_error_app1 in Hn by exact Hj.
             apply (ltb_le_lt (confidence o)); try assumption.
             - rewrite List.Forall_forall in Hnl. apply Hnl.
               eapply nth_error_In; eauto.
             - eapply Hge; eauto. }
           split.
           ++ intros j o' Hn Hc.
              destruct (Nat.lt_ge_cases j (List.length l)) as [Hj|Hj].
              ** apply ltb_asym. eauto.
              ** rewrite nth_error_app2 in Hn by exact Hj.
                 destruct (j - List.length l)%nat as [|k] eqn:E; simpl in Hn.
                 --- injection Hn as <-. apply ltb_irrefl.
                 --- now destruct k.
           ++ intros j o' Hj Hn Hc. eauto.
        -- right. exists i, o.
           split; [now rewrite nth_error_app1 by exact Hil|].
           split; [exact Ho|]. split; [reflexivity|].
           intros Hnan. apply Forall_app in Hnan as [Hnl Hnx].
           destruct (Hmax Hnl) as [Hge Hbefore].
           split.
           ++ intros j o' Hn Hc.
              destruct (Nat.lt_ge_cases j (List.length l)) as [Hj|Hj].
              ** rewrite nth_error_app1 in Hn by exact Hj. eauto.
              ** rewrite nth_error_app2 in Hn by exact Hj.
                 destruct (j - List.length l)%nat as [|k] eqn:E; simpl in Hn.
                 --- now injection Hn as <-.
                 --- now destruct k.
           ++ intros j o' Hj Hn Hc.
              rewrite nth_error_app1 in Hn by lia. eauto.
    + (* the new variant is skipped *)
      rewrite (bestStep_skip _ _ Hx).
      destruct IH as [[Hall Hst]|(i & o & Hi & Ho & Hst & Hmax)].
      * left. split; [|exact Hst].
        rewrite forallb_app, Hall. simpl. now rewrite Hx.
      * right. exists i, o.
        assert (Hil : (i < List.length l)%nat)
          by (apply nth_error_Some; congruence).
        split; [now rewrite nth_error_app1 by exact Hil|].
        split; [exact Ho|]. split; [exact Hst|].
        intros Hnan. apply Forall_app in Hnan as [Hnl Hnx].
        destruct (Hmax Hnl) as [Hge Hbefore].
        split.
        -- intros j o' Hn Hc.
           destruct (Nat.lt_ge_cases j (List.length l)) as [Hj|Hj].
           ++ rewrite nth_error_app1 in Hn by exact Hj. eauto.
           ++ rewrite nth_error_app2 in Hn by exact Hj.
              destruct (j - List.length l)%nat as [|k] eqn:E; simpl in Hn.
              ** injection Hn as <-. congruence.
              ** now destruct k.
        -- intros j o' Hj Hn Hc.
           rewrite nth_error_app1 in Hn by lia. eauto.
Qed.

End Selection.

(** ** The strings that [toFixed] produces *)

Section Formatting.

Lemma string_of_uint_digits (d : Decimal.uint) :
  forallb isDigitChar (list_ascii_of_string (NilEmpty.string_of_uint d))
  = true.
Proof. induction d; simpl; auto. Qed.

Lemma digitsOf_digits (n : Z) : forallb isDigitChar (Num.digitsOf n) = true.
Proof.
  unfold Num.digitsOf, NilZero.string_of_uint.
  destruct (N.to_uint (Z.to_N n)) eqn:E; try reflexivity;
    rewrite <- E; apply string_of_uint_digits.
Qed.

Lemma digitsOf_nonempty (n : Z) : (1 <= List.length (Num.digitsOf n))%nat.
Proof.
  unfold Num.digitsOf, NilZero.string_of_uint.
  destruct (N.to_uint (Z.to_N n)); simpl; lia.
Qed.

Lemma forallb_repeat {A : Type} (p : A -> bool) (c : A) (n : nat) :
  p c = true -> forallb p (repeat c n) = true.
Proof. intros H. induction n; simpl; [reflexivity|]. now rewrite H. Qed.

(** The digits before and after the point of [fixedDigits]. *)
Lemma fixedDigits_shape (f : nat) (n : Z) :
  exists ip fp,
    Num.fixedDigits (S f) n = ip ++ "."%char :: fp /\
    (1 <= List.length ip)%nat /\ forallb isDigitChar ip = true /\
    List.length fp = S f /\ forallb isDigitChar fp = true.
Proof.
  unfold Num.fixedDigits.
  set (m := Num.digitsOf n).
  set (m' := if (List.length m <=? S f)%nat
             then repeat "0"%char (S f + 1 - List.length m) ++ m else m).
  assert (Hd : forallb isDigitChar m' = true).
  { subst m'. destruct (_ <=? _)%nat; [|apply digitsOf_digits].
    rewrite forallb_app, forallb_repeat by reflexivity.
    apply digitsOf_digits. }
  assert (Hl : (S f + 1 <= List.length m')%nat).
  { subst m'. destruct (Nat.leb_spec (List.length m) (S f)).
    - rewrite length_app, repeat_length. lia.
    - lia. }
  exists (firstn (List.length m' - S f) m'), (skipn (List.length m' - S f) m').
  rewrite <- (firstn_skipn (List.length m' - S f) m') in Hd.
  rewrite forallb_app in Hd. apply andb_prop in Hd as [H1 H2].
  repeat split; try assumption.
  - rewrite length_firstn. lia.
  - rewrite length_skipn. lia.
Qed.

Lemma list_of_append (a b : string) :
  list_ascii_of_string (String.append a b) =
  list_ascii_of_string a ++ list_ascii_of_string b.
Proof. induction a; simpl; [reflexivity|]. now rewrite IHa. Qed.

Lemma isFixedDecimal_intro (f : nat) (neg : bool) (ip fp : list ascii) :
  (1 <= List.length ip)%nat -> forallb isDigitChar ip = true ->
  List.length fp = f -> forallb isDigitChar fp = true ->
  isFixedDecimal f
    (String.append (if neg then "-" else "")
                   (string_of_list_ascii (ip ++ "."%char :: fp))) = true.
Proof.
  intros Hl Hi Hf Hp. unfold isFixedDecimal. cbv zeta.
  rewrite !list_of_append, list_ascii_of_string_of_list_ascii.
  destruct ip as [|c ip]; [simpl in Hl; lia|].
  assert (Hc : Ascii.eqb c "-" = false).
  { simpl in Hi. apply andb_prop in Hi as [Hc _].
    destruct (Ascii.eqb_spec c "-") as [->|]; [discriminate|reflexivity]. }
  pose proof (span_app isDigitChar (c :: ip) ("."%char :: fp) Hi eq_refl)
    as Hspan.
  destruct neg; cbn [list_ascii_of_string app Ascii.eqb Bool.eqb];
    rewrite ?Hc; change (c :: ip ++ "."%char :: fp)
                   with ((c :: ip) ++ "."%char :: fp);
    rewrite Hspan.
  all: change (Ascii.eqb "." ".") with true.
  all: now rewrite Hp, Hf, Nat.eqb_refl.
Qed.

(** Below 10^21 in magnitude, [toFixed] with at least one fractional digit
    gives a decimal string with exactly that many. *)
Lemma toFixed_shape (f : nat) (x : spec_float) :
  Num.absLt x (10 ^ 21) = true ->
  isFixedDecimal (S f) (Num.toFixed (S f) x) = true.
Proof.
  intros H. destruct x as [s|s| |s m e]; try discriminate.
  - unfold Num.toFixed.
    destruct (fixedDigits_shape f 0) as (ip & fp & -> & H1 & H2 & H3 & H4).
    now apply (isFixedDecimal_intro (S f) false).
  - unfold Num.toFixed. rewrite H.
    destruct (fixedDigits_shape f (Num.scaledRound m e (S f)))
      as (ip & fp & -> & H1 & H2 & H3 & H4).
    now apply isFixedDecimal_intro.
Qed.

Lemma toStringBig_head (X : Z) :
  match Num.toStringBig X with
  | [] => True
  | c :: _ => isDigitChar c = true
  end.
Proof.
  unfold Num.toStringBig.
  destruct (Num.shortestDigits _ _ _ _) as [s n].
  pose proof (digitsOf_digits s) as H.
  destruct (Num.digitsOf s) as [|c rest]; [exact I|].
  simpl in *. now apply andb_prop in H as [Hc _].
Qed.

(** The text ["NaN"] is produced for NaN only. *)
Lemma toFixed_not_NaN (f : nat) (x : spec_float) :
  Num.isNaN x = false -> Num.toFixed (S f) x <> "NaN"%string.
Proof.
  intros Hx. destruct x as [s|s| |s m e]; try discriminate.
  - intros E.
    pose proof (toFixed_shape f (S754_zero s) eq_refl) as H.
    rewrite E in H. vm_compute in H. now destruct f.
  - now destruct s.
  - destruct (Num.absLt (S754_finite s m e) (10 ^ 21)) eqn:Hlt.
    + intros E. pose proof (toFixed_shape f _ Hlt) as H.
      rewrite E in H. vm_compute in H. now destruct f.
    + unfold Num.toFixed. rewrite Hlt.
      destruct s; [discriminate|]. simpl String.append.
      pose proof (toStringBig_head
                    (if 0 <=? e then Z.pos m * 2 ^ e
                     else Z.pos m / 2 ^ (- e))) as H.
      destruct (Num.toStringBig _) as [|c r]; [discriminate|].
      simpl. intros E. injection E as -> _. discriminate.
Qed.

End Formatting.

(** ** Candidate extraction *)

Section Extraction.

Lemma extractNumericValue_parsed (text : list N) (parameter : string) :
  extractNumericValue text parameter =
  match parsedOf text with
  | [] => "0.00"%string
  | first :: _ =>
    Num.toFixed 2 (selectValue parameter (parsedOf text) first)
  end.
Proof.
  unfold extractNumericValue, parsedOf, tokensOf.
  destruct (matchAll _) as [[|t ts]|]; reflexivity.
Qed.

Lemma filter_all {A : Type} (p : A -> bool) (l : list A) :
  forallb p l = true -> List.filter p l = l.
Proof.
  induction l as [|a l IH]; simpl; [reflexivity|].
  intros H. apply andb_prop in H as [Ha Hl]. now rewrite Ha, IH.
Qed.

Lemma validNumbersOf_tokens (text : list N) :
  validNumbersOf (tokensOf text) = map Num.parseFloat (tokensOf text).
Proof.
  unfold validNumbersOf. apply filter_all.
  pose proof (tokensOf_shape text) as H.
  induction H as [|tok l Htok _ IH]; simpl; [reflexivity|].
  now rewrite (parseFloat_token tok Htok), IH.
Qed.

Lemma parsedOf_not_nan (text : list N) :
  forallb (fun v => negb (Num.isNaN v)) (parsedOf text) = true.
Proof.
  unfold parsedOf, validNumbersOf.
  induction (map Num.parseFloat (tokensOf text)) as [|v l IH]; simpl;
    [reflexivity|].
  destruct (Num.isNaN v) eqn:E; simpl; [exact IH|]. now rewrite E.
Qed.

(** The first element that satisfies [p], with what precedes it; or none. *)
Lemma filter_head {A : Type} (p : A -> bool) (l : list A) :
  (exists pre x post,
     l = pre ++ x :: post /\ forallb (fun y => negb (p y)) pre = true /\
     p x = true /\ List.filter p l = x :: List.filter p post)
  \/ (forallb (fun y => negb (p y)) l = true /\ List.filter p l = []).
Proof.
  induction l as [|a l IH]; [right; split; reflexivity|].
  simpl. destruct (p a) eqn:E.
  - left. exists [], a, l. repeat split; assumption.
  - destruct IH as [(pre & x & post & -> & Hpre & Hx & Hf)|[Hall Hf]].
    + left. exists (a :: pre), x, post. simpl. rewrite E.
      repeat split; assumption.
    + right. simpl. now rewrite Hall.
Qed.

Lemma preferInRange_in (lo hi : Z) (vs : list spec_float) (first : spec_float) :
  In first vs -> In (preferInRange lo hi vs first) vs.
Proof.
  intros Hf. unfold preferInRange.
  destruct (List.filter (inRange lo hi) vs) as [|x l] eqn:E; [exact Hf|].
  assert (Hx : In x (List.filter (inRange lo hi) vs)) by (rewrite E; now left).
  apply filter_In in Hx. tauto.
Qed.

Lemma selectValue_in (parameter : string) (vs : list spec_float)
    (first : spec_float) :
  In first vs -> In (selectValue parameter vs first) vs.
Proof.
  intros Hf. unfold selectValue.
  repeat (destruct (String.eqb parameter _);
          [now apply preferInRange_in|]).
  exact Hf.
Qed.

End Extraction.

(** ** The selection loop and the extraction together *)

Lemma selectBest_no_candidate (parameter : string) (obs : list Observation) :
  (forall o, In o obs -> isCandidate parameter o = false) ->
  selectBest parameter obs = ("0.00"%string, S754_zero false).
Proof.
  intros H.
  destruct (selectBest_invariant parameter obs)
    as [[_ Hst]|(i & o & Hi & Ho & _)]; [exact Hst|].
  apply nth_error_In in Hi. rewrite (H o Hi) in Ho. discriminate.
Qed.

Lemma readsZero_not_candidate (parameter : string) (o : Observation) :
  readsZero parameter (text o) -> isCandidate parameter o = false.
Proof.
  intros (first & rest & sign & Hp & Hz). unfold isCandidate.
  rewrite extractNumericValue_parsed, Hp, Hz. reflexivity.
Qed.

Lemma no_token_not_candidate (parameter : string) (o : Observation) :
  parsedOf (text o) = [] -> isCandidate parameter o = false.
Proof.
  intros Hp. unfold isCandidate.
  now rewrite extractNumericValue_parsed, Hp.
Qed.

(** When the parsed values are below 10^21 in magnitude, the result is a
    decimal string with exactly two fractional digits. *)
Lemma extract_two_fraction_digits (text : list N) (parameter : string) :
  forallb (fun v => Num.absLt v (10 ^ 21)) (parsedOf text) = true ->
  isFixedDecimal 2 (extractNumericValue text parameter) = true.
Proof.
  intros H. rewrite extractNumericValue_parsed.
  destruct (parsedOf text) as [|v vs] eqn:E; [reflexivity|].
  apply toFixed_shape.
  rewrite forallb_forall in H. apply H.
  apply selectValue_in. now left.
Qed.

(** ** The orchestrator *)

Section Orchestrator.

Variable env : Env.

Lemma quadrants_keys (w h : Z) :
  map fst (quadrants w h) = [temperature; pH; dissolvedOxygen; salinity].
Proof. reflexivity. Qed.

Lemma quadrants_NoDup (w h : Z) : List.NoDup (map fst (quadrants w h)).
Proof.
  rewrite quadrants_keys.
  repeat constructor; simpl; intuition discriminate.
Qed.

(** Two tasks that finish in the other order leave the same object. *)
Lemma assemble_permutation (l1 l2 : list (string * Region.t)) :
  Permutation l1 l2 -> List.NoDup (map fst l1) ->
  forall m, fold_left (settle env) l1 m = fold_left (settle env) l2 m.
Proof.
  induction 1 as [|x l l' HP IH|x y l|l l' l'' HP1 IH1 HP2 IH2];
    intros Hnd m.
  - reflexivity.
  - simpl. apply IH. simpl in Hnd. now apply List.NoDup_cons_iff in Hnd.
  - simpl. f_equal. unfold settle. apply insert_insert_ne.
    simpl in Hnd. apply List.NoDup_cons_iff in Hnd as [Hy _].
    simpl in Hy. intros E. apply Hy. now left.
  - rewrite IH1 by exact Hnd. apply IH2.
    eapply Permutation_NoDup; [|exact Hnd]. now apply Permutation_map.
Qed.

Lemma assemble_quadrants (w h : Z) :
  assemble env (quadrants w h) =
  <[salinity := quadrantValue env
       (salinity, Region.mk (w / 2) (h / 2) (w / 2) (h / 2))]>
  (<[dissolvedOxygen := quadrantValue env
       (dissolvedOxygen, Region.mk 0 (h / 2) (w / 2) (h / 2))]>
  (<[pH := quadrantValue env (pH, Region.mk 0 0 (w / 2) (h / 2))]>
  (<[temperature := quadrantValue env
       (temperature, Region.mk (w / 2) 0 (w / 2) (h / 2))]> ∅))).
Proof. reflexivity. Qed.

Lemma assemble_dom (w h : Z) :
  dom (assemble env (quadrants w h)) =
  ({[pH; temperature; dissolvedOxygen; salinity]} : gset string).
Proof. rewrite assemble_quadrants, !dom_insert_L. set_solver. Qed.

Lemma assemble_lookup (w h : Z) (q : string * Region.t) :
  In q (quadrants w h) ->
  assemble env (quadrants w h) !! fst q = Some (quadrantValue env q).
Proof.
  intros Hq. rewrite assemble_quadrants. simpl in Hq.
  destruct Hq as [<-|[<-|[<-|[<-|[]]]]]; simpl;
    repeat (rewrite lookup_insert_ne by discriminate);
    now rewrite lookup_insert_eq.
Qed.

End Orchestrator.

Lemma quadrantValue_failAt (env : Env) (parameter : string)
    (q : string * Region.t) :
  quadrantValue (failAt parameter env) q =
  if String.eqb (fst q) parameter then "0.00"%string
  else quadrantValue env q.
Proof.
  unfold quadrantValue, failAt. simpl.
  now destruct (String.eqb (fst q) parameter).
Qed.

Lemma assemble_failAt (env : Env) (w h : Z) (q : string * Region.t) :
  In q (quadrants w h) ->
  assemble (failAt (fst q) env) (quadrants w h) =
  <[fst q := "0.00"%string]> (assemble env (quadrants w h)).
Proof.
  intros Hq. rewrite !assemble_quadrants, !quadrantValue_failAt.
  simpl in Hq.
  destruct Hq as [<-|[<-|[<-|[<-|[]]]]]; simpl;
    apply map_eq; intros k;
    repeat (rewrite lookup_insert; case_decide);
    simplify_eq; reflexivity.
Qed.

(** ** The script as a whole *)

(** A run of [main]: either it exits with code 1 without a write to the
    database, for one of five reasons, or it makes one update and its exit
    depends on that update alone. *)
Lemma main_cases (w : World) :
  (exitCode (main w) = Some 1 /\
   List.filter isUpdate (calls (main w)) = [] /\
   (argv2 w = None \/ argv2 w = Some [] \/
    (exists imagePath, argv2 w = Some imagePath /\
       (existsSync w imagePath = false \/
        fst (initFirebase w (appsLength w)) = None \/
        processImage (imageEnv w imagePath) = None))))
  \/
  (exists imagePath results,
     argv2 w = Some imagePath /\ imagePath <> [] /\
     existsSync w imagePath = true /\
     fst (initFirebase w (appsLength w)) <> None /\
     processImage (imageEnv w imagePath) = Some results /\
     List.filter isUpdate (calls (main w)) =
       [CallUpdate (extractUnitId imagePath)
                   (dataWithTimestamp results (isoNow w))] /\
     exitCode (main w) =
       if updateResolves w (extractUnitId imagePath)
                         (dataWithTimestamp results (isoNow w))
       then None else Some 1).
Proof.
  unfold main.
  destruct (argv2 w) as [[|c path]|] eqn:Ea;
    [left; simpl; repeat split; auto| |left; simpl; repeat split; auto].
  destruct (existsSync w (c :: path)) eqn:Ee; cbn [negb].
  2:{ left. simpl. repeat split. right. right. exists (c :: path). auto. }
  assert (Hcs : List.filter isUpdate (snd (initFirebase w (appsLength w)))
                = []).
  { unfold initFirebase. destruct (appsLength w); [|reflexivity].
    destruct (serviceAccountParses w); [|reflexivity].
    destruct (certReturns w); [|reflexivity].
    now destruct (initializeAppReturns w). }
  destruct (initFirebase w (appsLength w)) as [[apps|] cs] eqn:Ei;
    simpl in Hcs.
  2:{ left. simpl. repeat split; [exact Hcs|].
      right. right. exists (c :: path). auto. }
  destruct (processImage (imageEnv w (c :: path))) as [results|] eqn:Ep.
  2:{ left. simpl. repeat split; [exact Hcs|].
      right. right. exists (c :: path). auto. }
  right. exists (c :: path), results. unfold updateFirebase. simpl.
  repeat split; try assumption; try discriminate.
  now rewrite List.filter_app, Hcs.
Qed.

(** * The claims *)

(** ** C1: a text without a number *)

(** C1, as the script has it: when no token survives cleaning and scanning,
    in particular when the text has no digit, [extractNumericValue] returns
    the placeholder ["0.00"], which is also how a parsed zero is
    rendered. *)
Theorem extract_no_token_placeholder (text : list N) (parameter : string) :
  existsb isDigit text = false \/ parsedOf text = [] ->
  parsedOf text = [] /\
  extractNumericValue text parameter = "0.00"%string /\
  extractNumericValue text parameter =
    Num.toFixed 2 (Num.parseFloat (utf16 "0")).
Proof.
  intros H.
  assert (Hp : parsedOf text = []).
  { destruct H as [H|H]; [|exact H].
    unfold parsedOf. now rewrite (tokensOf_no_digit text H). }
  split; [exact Hp|].
  rewrite extractNumericValue_parsed, Hp. split; reflexivity.
Qed.

Lemma extract_no_token_placeholder_witness :
  existsb isDigit (utf16 "no reading") = false /\
  extractNumericValue (utf16 "no reading") pH = "0.00"%string.
Proof.
  split; [reflexivity|].
  apply (extract_no_token_placeholder (utf16 "no reading") pH).
  left. reflexivity.
Defined.

(** C1 as stated fails: a text without digits and a text that reads zero
    give the same string, ["0.00"]. *)
Lemma extract_no_digit_is_zero_reading :
  existsb isDigit (utf16 "no reading") = false /\
  parsedOf (utf16 "0") = [S754_zero false] /\
  extractNumericValue (utf16 "no reading") dissolvedOxygen = "0.00"%string /\
  extractNumericValue (utf16 "no reading") dissolvedOxygen =
    extractNumericValue (utf16 "0") dissolvedOxygen.
Proof. vm_compute. repeat split. Qed.

(** ** C2: cross-variant selection *)

(** C2, as the script has it: what competes are the variants whose extracted
    string is not ["0.00"].  When no confidence is NaN, the loop ends with
    the value and the confidence of such a variant that no other one exceeds
    in confidence and that every earlier one is strictly below (the first
    variant wins a tie); such a variant is selected whatever the confidences
    of the others are; with no such variant the result is ["0.00"].  For
    temperature, 22.5 at confidence 60 and -3.0 at confidence 85 give
    ["-3.00"]; two variants without a number and 6.8 at confidence 40 give
    ["6.80"]. *)
Theorem selectBest_highest_confidence :
  (forall (parameter : string) (obs : list Observation),
     List.Forall (fun o => Num.isNaN (confidence o) = false) obs ->
     ((forall o, In o obs -> isCandidate parameter o = false) /\
      selectBest parameter obs = ("0.00"%string, S754_zero false))
     \/
     (exists i o,
        nth_error obs i = Some o /\ isCandidate parameter o = true /\
        selectBest parameter obs =
          (extractNumericValue (text o) parameter, confidence o) /\
        (forall j o', nth_error obs j = Some o' ->
                      isCandidate parameter o' = true ->
                      Num.ltb (confidence o) (confidence o') = false) /\
        (forall j o', (j < i)%nat -> nth_error obs j = Some o' ->
                      isCandidate parameter o' = true ->
                      Num.ltb (confidence o') (confidence o) = true)))
  /\ fst (selectBest temperature
            [ mkObs (utf16 "22.5") (Num.ofZ 60);
              mkObs (utf16 "-3.0") (Num.ofZ 85) ]) = "-3.00"%string
  /\ fst (selectBest pH
            [ mkObs (utf16 "pH") (Num.ofZ 90);
              mkObs (utf16 "6.8") (Num.ofZ 40);
              mkObs (utf16 "-.-") (Num.ofZ 95) ]) = "6.80"%string.
Proof.
  split; [|split; vm_compute; reflexivity].
  intros parameter obs Hnan.
  destruct (selectBest_invariant parameter obs)
    as [[Hall Hst]|(i & o & Hi & Ho & Hst & Hmax)].
  - left. split; [|exact Hst].
    intros o Ho. rewrite forallb_forall in Hall.
    apply negb_true_iff. now apply Hall.
  - right. exists i, o. destruct (Hmax Hnan) as [Hge Hbefore].
    repeat split; assumption.
Qed.

Lemma selectBest_highest_confidence_witness :
  let obs := [ mkObs (utf16 "8.1") (Num.ofZ 70);
               mkObs (utf16 "8.7") (Num.ofZ 70);
               mkObs (utf16 "O2") (Num.ofZ 99) ] in
  List.Forall (fun o => Num.isNaN (confidence o) = false) obs /\
  (((forall o, In o obs -> isCandidate dissolvedOxygen o = false) /\
    selectBest dissolvedOxygen obs = ("0.00"%string, S754_zero false))
   \/
   (exists i o,
      nth_error obs i = Some o /\ isCandidate dissolvedOxygen o = true /\
      selectBest dissolvedOxygen obs =
        (extractNumericValue (text o) dissolvedOxygen, confidence o) /\
      (forall j o', nth_error obs j = Some o' ->
                    isCandidate dissolvedOxygen o' = true ->
                    Num.ltb (confidence o) (confidence o') = false) /\
      (forall j o', (j < i)%nat -> nth_error obs j = Some o' ->
                    isCandidate dissolvedOxygen o' = true ->
                    Num.ltb (confidence o') (confidence o) = true))).
Proof.
  intros obs.
  assert (H : List.Forall (fun o => Num.isNaN (confidence o) = false) obs)
    by (repeat constructor).
  split; [exact H|].
  exact (proj1 selectBest_highest_confidence dissolvedOxygen obs H).
Defined.

(** C2 as stated fails: a variant that reads zero has a Candidate, and the
    specification's selection takes it when its confidence is the highest;
    the script passes over it. *)
Lemma selectBest_passes_over_zero :
  let obs := [ mkObs (utf16 "0") (Num.ofZ 90);
               mkObs (utf16 "5") (Num.ofZ 40) ] in
  specCandidate temperature (mkObs (utf16 "0") (Num.ofZ 90))
    = Some (S754_zero false, Num.ofZ 90) /\
  specSelect temperature obs = Some "0.00"%string /\
  fst (selectBest temperature obs) = "5.00"%string.
Proof. vm_compute. repeat split. Qed.

(** ** C3: range preference *)

(** C3: for each Parameter with its valid range and every non-empty list
    of parsed values in scan order, the selected value is the first one that
    lies in the range and, when none does, the first parsed value; that
    value, formatted, is the result of the extraction; the text ["143"] read
    for pH gives ["143.00"]. *)
Theorem extract_prefers_range :
  (forall (parameter : string) (lo hi : Z)
          (v : spec_float) (vs : list spec_float),
     In (parameter, (lo, hi)) validRanges ->
     (exists pre x post,
        v :: vs = pre ++ x :: post /\
        forallb (fun y => negb (inRange lo hi y)) pre = true /\
        inRange lo hi x = true /\
        selectValue parameter (v :: vs) v = x)
     \/
     (forallb (fun y => negb (inRange lo hi y)) (v :: vs) = true /\
      selectValue parameter (v :: vs) v = v))
  /\
  (forall (text : list N) (parameter : string)
          (v : spec_float) (vs : list spec_float),
     parsedOf text = v :: vs ->
     extractNumericValue text parameter =
       Num.toFixed 2 (selectValue parameter (v :: vs) v))
  /\ extractNumericValue (utf16 "143") pH = "143.00"%string.
Proof.
  split; [|split; [|vm_compute; reflexivity]].
  - intros parameter lo hi v vs Hr.
    assert (Hs : selectValue parameter (v :: vs) v =
                 preferInRange lo hi (v :: vs) v).
    { simpl in Hr.
      destruct Hr as [E|[E|[E|[E|[]]]]]; injection E as <- <- <-;
        reflexivity. }
    rewrite Hs. unfold preferInRange.
    destruct (filter_head (inRange lo hi) (v :: vs))
      as [(pre & x & post & E & Hpre & Hx & Hf)|[Hall Hf]]; rewrite Hf.
    + left. exists pre, x, post. repeat split; assumption.
    + right. split; [assumption|reflexivity].
  - intros text parameter v vs Hp.
    now rewrite extractNumericValue_parsed, Hp.
Qed.

Lemma extract_prefers_range_witness :
  In (temperature, (-10, 60)) validRanges /\
  parsedOf (utf16 "-20 99 18.5 7") =
    map Num.parseFloat [utf16 "-20"; utf16 "99"; utf16 "18.5"; utf16 "7"] /\
  selectValue temperature
    (map Num.parseFloat [utf16 "-20"; utf16 "99"; utf16 "18.5"; utf16 "7"])
    (Num.parseFloat (utf16 "-20")) = Num.parseFloat (utf16 "18.5") /\
  extractNumericValue (utf16 "-20 99 18.5 7") temperature = "18.50"%string.
Proof.
  assert (Hr : In (temperature, (-10, 60)) validRanges)
    by (right; left; reflexivity).
  split; [exact Hr|]. split; [reflexivity|]. split.
  - destruct (proj1 extract_prefers_range temperature (-10) 60
                (Num.parseFloat (utf16 "-20"))
                (map Num.parseFloat [utf16 "99"; utf16 "18.5"; utf16 "7"])
                Hr)
      as [(pre & x & post & E & Hpre & Hx & Hs)|[Hall _]].
    + reflexivity.
    + discriminate Hall.
  - rewrite (proj1 (proj2 extract_prefers_range) (utf16 "-20 99 18.5 7")
               temperature _ _ eq_refl).
    reflexivity.
Defined.

(** ** C4: the four quadrants *)

(** C4: for positive even dimensions the partitioner yields four regions
    from [floor(W/2)] and [floor(H/2)]: pH is the top-left quarter,
    temperature the top-right, dissolvedOxygen the bottom-left and salinity
    the bottom-right one; every pixel of the image lies in one of them (no
    gap), every pixel of a region lies in the image, and no pixel lies in
    two of them (no overlap). *)
Theorem quadrants_tile (W H : Z) :
  0 < W -> 0 < H -> Z.even W = true -> Z.even H = true ->
  quadrants W H =
    [ (temperature, Region.mk (W / 2) 0 (W / 2) (H / 2));
      (pH, Region.mk 0 0 (W / 2) (H / 2));
      (dissolvedOxygen, Region.mk 0 (H / 2) (W / 2) (H / 2));
      (salinity, Region.mk (W / 2) (H / 2) (W / 2) (H / 2)) ] /\
  List.length (quadrants W H) = 4%nat /\
  (forall x y,
     (0 <= x < W /\ 0 <= y < H) <->
     (exists q, In q (quadrants W H) /\ Region.contains (snd q) x y)) /\
  (forall q1 q2 x y,
     In q1 (quadrants W H) -> In q2 (quadrants W H) ->
     Region.contains (snd q1) x y -> Region.contains (snd q2) x y ->
     q1 = q2).
Proof.
  intros HW HH EW EH.
  apply Z.even_spec in EW as [w ->]. apply Z.even_spec in EH as [h ->].
  unfold quadrants.
  rewrite !(Z.mul_comm 2), !Z.div_mul by lia.
  split; [reflexivity|]. split; [reflexivity|]. split.
  - intros x y. split.
    + intros [Hx Hy].
      destruct (Z_lt_le_dec x w), (Z_lt_le_dec y h).
      * exists (pH, Region.mk 0 0 w h).
        split; [simpl; tauto|]. unfold Region.contains. simpl. lia.
      * exists (dissolvedOxygen, Region.mk 0 h w h).
        split; [simpl; tauto|]. unfold Region.contains. simpl. lia.
      * exists (temperature, Region.mk w 0 w h).
        split; [simpl; tauto|]. unfold Region.contains. simpl. lia.
      * exists (salinity, Region.mk w h w h).
        split; [simpl; tauto|]. unfold Region.contains. simpl. lia.
    + intros (q & Hq & Hc). simpl in Hq.
      destruct Hq as [<-|[<-|[<-|[<-|[]]]]];
        unfold Region.contains in Hc; simpl in Hc; lia.
  - intros q1 q2 x y H1 H2 C1 C2. simpl in H1, H2.
    destruct H1 as [<-|[<-|[<-|[<-|[]]]]];
      destruct H2 as [<-|[<-|[<-|[<-|[]]]]];
      try reflexivity;
      unfold Region.contains in C1, C2; simpl in C1, C2; lia.
Qed.

Lemma quadrants_tile_witness :
  (0 < 400 /\ 0 < 300 /\ Z.even 400 = true /\ Z.even 300 = true) /\
  ((0 <= 250 < 400 /\ 0 <= 100 < 300) <->
   (exists q, In q (quadrants 400 300) /\ Region.contains (snd q) 250 100)).
Proof.
  split; [repeat split|].
  apply (quadrants_tile 400 300); reflexivity.
Defined.

(** ** C5: all four keys *)

(** C5: once the image is decoded, [processImage] resolves to an object
    with exactly the four keys, each holding what its own quadrant produced;
    when everything in the pipeline of one Parameter throws instead, that
    key holds the placeholder ["0.00"] and the other three values are what
    they were. *)
Theorem processImage_all_four_keys (env : Env) (w h : Z) :
  decode env = Some (w, h) ->
  exists results : gmap string string,
    processImage env = Some results /\
    dom results = {[pH; temperature; dissolvedOxygen; salinity]} /\
    (forall q, In q (quadrants w h) ->
               results !! fst q = Some (quadrantValue env q)) /\
    (forall q, In q (quadrants w h) ->
       processImage (failAt (fst q) env) =
         Some (<[fst q := "0.00"%string]> results) /\
       forall parameter, parameter <> fst q ->
         <[fst q := "0.00"%string]> results !! parameter =
         results !! parameter).
Proof.
  intros Hd. exists (assemble env (quadrants w h)).
  split; [unfold processImage; now rewrite Hd|].
  split; [apply assemble_dom|].
  split; [apply assemble_lookup|].
  intros q Hq. split.
  - unfold processImage. simpl. rewrite Hd. f_equal.
    now apply assemble_failAt.
  - intros parameter Hne. now apply lookup_insert_ne.
Qed.

Lemma processImage_all_four_keys_witness :
  exists results : gmap string string,
    processImage
      (mkEnv (Some (400, 300))
             (fun p _ => if String.eqb p salinity then None
                         else Some [mkObs (utf16 "7.1") (Num.ofZ 80)]))
    = Some results /\
    dom results = {[pH; temperature; dissolvedOxygen; salinity]}.
Proof.
  destruct (processImage_all_four_keys
              (mkEnv (Some (400, 300))
                     (fun p _ => if String.eqb p salinity then None
                                 else Some [mkObs (utf16 "7.1") (Num.ofZ 80)]))
              400 300 eq_refl)
    as (results & H1 & H2 & _).
  exists results. split; assumption.
Defined.

(** ** C6: images without pixels *)



(** ** C7: two fractional digits *)

(** C7: the text ["pH 7.4"] read for pH gives ["7.40"], but a selected
    value is not always rendered with two fractional digits: [toFixed]
    switches to the exponent form from 10^21 on, so a token of 22 digits is
    rendered ["1e+21"], and one that overflows is rendered ["Infinity"]. *)
Theorem extract_huge_not_two_digits :
  extractNumericValue (utf16 "pH 7.4") pH = "7.40"%string /\
  parsedOf (utf16 "1000000000000000000000") = [Num.ofZ (10 ^ 21)] /\
  extractNumericValue (utf16 "1000000000000000000000") salinity
    = "1e+21"%string /\
  isFixedDecimal 2
    (extractNumericValue (utf16 "1000000000000000000000") salinity) = false /\
  Num.toFixed 2 (S754_infinity false) = "Infinity"%string.
Proof. vm_compute. repeat split. Qed.

(** ** C8: determinism *)

(** C8: the result is a function of what the decoder and the OCR engine
    return.  The one thing that may differ between two runs is the order in
    which the four concurrent tasks write their key, and every order gives
    the same object, the one [processImage] resolves to. *)
Theorem processImage_deterministic (env : Env) (w h : Z)
    (order1 order2 : list (string * Region.t)) :
  decode env = Some (w, h) ->
  Permutation order1 (quadrants w h) ->
  Permutation order2 (quadrants w h) ->
  assemble env order1 = assemble env order2 /\
  processImage env = Some (assemble env order1).
Proof.
  intros Hd H1 H2.
  assert (E : forall order, Permutation order (quadrants w h) ->
                assemble env order = assemble env (quadrants w h)).
  { intros order HP. unfold assemble. apply assemble_permutation; [exact HP|].
    eapply Permutation_NoDup;
      [apply Permutation_map, Permutation_sym, HP | apply quadrants_NoDup]. }
  split.
  - now rewrite (E order1 H1), (E order2 H2).
  - unfold processImage. now rewrite Hd, (E order1 H1).
Qed.

Lemma processImage_deterministic_witness :
  let env := mkEnv (Some (400, 300))
                   (fun p _ => if String.eqb p pH then None
                               else Some [mkObs (utf16 "12.5") (Num.ofZ 61)]) in
  assemble env (rev (quadrants 400 300)) = assemble env (quadrants 400 300) /\
  processImage env = Some (assemble env (rev (quadrants 400 300))).
Proof.
  intros env.
  apply (processImage_deterministic env 400 300); [reflexivity| |].
  - apply Permutation_sym, Permutation_rev.
  - apply Permutation_refl.
Defined.

(** ** C9: a reading of zero *)

(** C9: a variant that reads exactly zero is rendered ["0.00"] and is not
    a candidate of the loop.  So when some variant yields another string,
    the loop ends with the value and the confidence of such a variant, never
    with those of the zero reading, whatever its confidence (zero at
    confidence 95 loses to 7.4 at confidence 10); and when every variant
    reads zero the result is the initial ["0.00"], the same as when every
    variant has no number at all, and the same as what the [catch] clause
    writes when the pipeline of the Parameter throws. *)
Theorem zero_reading_counts_as_no_reading :
  (forall (parameter : string) (o : Observation),
     readsZero parameter (text o) ->
     extractNumericValue (text o) parameter = "0.00"%string /\
     isCandidate parameter o = false)
  /\
  (forall (parameter : string) (obs : list Observation),
     (exists o, In o obs /\
                extractNumericValue (text o) parameter <> "0.00"%string) ->
     exists o, In o obs /\ ~ readsZero parameter (text o) /\
               extractNumericValue (text o) parameter <> "0.00"%string /\
               selectBest parameter obs =
                 (extractNumericValue (text o) parameter, confidence o))
  /\
  (forall (parameter : string) (zeros failed : list Observation),
     (forall o, In o zeros -> readsZero parameter (text o)) ->
     (forall o, In o failed -> parsedOf (text o) = []) ->
     fst (selectBest parameter zeros) = "0.00"%string /\
     selectBest parameter zeros = selectBest parameter failed)
  /\
  (forall (env : Env) (q : string * Region.t) (zeros : list Observation),
     recognize env (fst q) (snd q) = Some zeros ->
     (forall o, In o zeros -> readsZero (fst q) (text o)) ->
     quadrantValue env q = "0.00"%string /\
     quadrantValue env q = quadrantValue (failAt (fst q) env) q)
  /\
  selectBest temperature
    [ mkObs (utf16 "0.0") (Num.ofZ 95); mkObs (utf16 "7.4") (Num.ofZ 10) ]
  = ("7.40"%string, Num.ofZ 10).
Proof.
  split; [|split; [|split; [|split; [|vm_compute; reflexivity]]]].
  - intros parameter o Hz.
    pose proof (readsZero_not_candidate parameter o Hz) as Hc.
    split; [|exact Hc]. unfold isCandidate in Hc.
    apply negb_false_iff in Hc. now apply String.eqb_eq.
  - intros parameter obs (o0 & Hin & Hne).
    destruct (selectBest_invariant parameter obs)
      as [[Hall _]|(i & o & Hi & Ho & Hst & _)].
    + exfalso. rewrite forallb_forall in Hall. specialize (Hall o0 Hin).
      unfold isCandidate in Hall. rewrite negb_involutive in Hall.
      now apply String.eqb_eq in Hall.
    + exists o. split; [now apply nth_error_In in Hi|].
      split; [|split; [|exact Hst]].
      * intros Hz. rewrite (readsZero_not_candidate _ _ Hz) in Ho.
        discriminate.
      * unfold isCandidate in Ho. apply negb_true_iff in Ho.
        now apply String.eqb_neq.
  - intros parameter zeros failed Hz Hf.
    rewrite (selectBest_no_candidate parameter zeros)
      by (intros o Ho; apply readsZero_not_candidate; auto).
    rewrite (selectBest_no_candidate parameter failed)
      by (intros o Ho; apply no_token_not_candidate; auto).
    split; reflexivity.
  - intros env q zeros Hr Hz.
    assert (Hfail : quadrantValue (failAt (fst q) env) q = "0.00"%string)
      by (unfold quadrantValue, failAt; cbn [recognize];
          now rewrite String.eqb_refl).
    rewrite Hfail. unfold quadrantValue. rewrite Hr.
    rewrite (selectBest_no_candidate (fst q) zeros)
      by (intros o Ho; apply readsZero_not_candidate; auto).
    split; reflexivity.
Qed.

Lemma zero_reading_counts_as_no_reading_witness :
  extractNumericValue (utf16 "-0.0") temperature = "0.00"%string /\
  selectBest salinity
    [ mkObs (utf16 "0") (Num.ofZ 99); mkObs (utf16 "35.1") (Num.ofZ 3) ]
  <> ("0.00"%string, Num.ofZ 99).
Proof.
  split.
  - apply (proj1 zero_reading_counts_as_no_reading temperature
             (mkObs (utf16 "-0.0") (Num.ofZ 50))).
    exists (S754_zero true), [], true. split; reflexivity.
  - destruct (proj1 (proj2 zero_reading_counts_as_no_reading) salinity
                [ mkObs (utf16 "0") (Num.ofZ 99);
                  mkObs (utf16 "35.1") (Num.ofZ 3) ])
      as (o & _ & _ & Hne & ->).
    + exists (mkObs (utf16 "35.1") (Num.ofZ 3)).
      split; [right; left; reflexivity|]. vm_compute. discriminate.
    + intros E. apply Hne. now injection E.
Defined.

(** ** C10: every token is a number *)

(** C10: every token that the pattern matches parses to a Number that is
    not NaN, so the filter keeps all of them and the second guard is never
    taken: the result is ["0.00"] exactly when there is no token, and else
    the formatted selection among the parsed tokens; it is never ["NaN"].
    The scan itself always runs to the end of the text. *)
Theorem tokens_always_parse (text : list N) (parameter : string) :
  List.Forall (fun tok => Num.isNaN (Num.parseFloat tok) = false)
              (tokensOf text) /\
  parsedOf text = map Num.parseFloat (tokensOf text) /\
  (tokensOf text <> [] -> parsedOf text <> []) /\
  extractNumericValue text parameter =
    match tokensOf text with
    | [] => "0.00"%string
    | tok :: toks =>
      Num.toFixed 2
        (selectValue parameter (map Num.parseFloat (tok :: toks))
                     (Num.parseFloat tok))
    end /\
  extractNumericValue text parameter <> "NaN"%string /\
  (forall fuel s, (List.length s <= fuel)%nat ->
                  matchAllFrom fuel s = matchAllFrom (List.length s) s).
Proof.
  assert (Hp : parsedOf text = map Num.parseFloat (tokensOf text))
    by apply validNumbersOf_tokens.
  split; [|split; [exact Hp|split; [|split; [|split]]]].
  - eapply List.Forall_impl; [|apply tokensOf_shape].
    intros tok. apply parseFloat_token.
  - rewrite Hp. now destruct (tokensOf text).
  - rewrite extractNumericValue_parsed, Hp.
    now destruct (tokensOf text).
  - rewrite extractNumericValue_parsed.
    pose proof (parsedOf_not_nan text) as Hn.
    destruct (parsedOf text) as [|v vs] eqn:E; [discriminate|].
    apply toFixed_not_NaN.
    rewrite forallb_forall in Hn. apply negb_true_iff, Hn.
    apply selectValue_in. now left.
  - apply matchAllFrom_enough.
Qed.

(** * Further properties of the script *)

(** ** File names *)

(** The cases of Node's own tests of [path]. *)
Example path_examples :
  let ext t := Path.extname (utf16 t) in
  let base t x := Path.basename (utf16 t) (utf16 x) in
  ext "index.html" = utf16 ".html" /\ ext "index.coffee.md" = utf16 ".md" /\
  ext "index." = utf16 "." /\ ext "index" = [] /\ ext ".index" = [] /\
  ext ".index.md" = utf16 ".md" /\ ext ".." = [] /\ ext "..." = utf16 "." /\
  ext "a.b/" = utf16 ".b" /\ ext "a.b/c" = [] /\ ext "/.x/" = [] /\
  base "/foo/bar/baz/asdf/quux.html" "" = utf16 "quux.html" /\
  base "/foo/bar/baz/asdf/quux.html" ".html" = utf16 "quux" /\
  base "aaa/bbb" "/bbb" = utf16 "bbb" /\ base "aaa/bbb" "a/bbb" = utf16 "bbb" /\
  base "aaa/bbb" "bbb" = utf16 "bbb" /\ base "aaa/bbb//" "bbb" = utf16 "bbb" /\
  base "aaa/bbb" "bb" = utf16 "b" /\ base "aaa/bbb" "b" = utf16 "bb" /\
  base "/aaa/" "" = utf16 "aaa" /\ base "//a" "" = utf16 "a" /\
  base "a" "a" = [] /\ base "" "" = [] /\ base "///" "" = [] /\
  base "a.b/" ".b" = utf16 "a" /\ base "file.js.old" ".js.old" = utf16 "file".
Proof. vm_compute. repeat split. Qed.

Example extractUnitId_examples :
  let unit t := extractUnitId (utf16 t) in
  unit "images/unit_1_20250105_143022.jpg" = utf16 "unit_1" /\
  unit "unit_2.jpg" = utf16 "unit_2" /\
  unit "images/pond_7.png" = utf16 "pond_7" /\
  unit "Unit 12.jpeg" = utf16 "unit_12" /\
  unit "myUNIT007b.png" = utf16 "unit_007" /\
  unit "unit-3.jpg" = utf16 "unit_1" /\
  unit "sensor5.jpg" = utf16 "unit_1" /\
  unit "_.jpg" = utf16 "_" /\
  unit "unit.1_2.jpg" = utf16 "unit.1_2" /\
  unit "" = utf16 "unit_1".
Proof. vm_compute. repeat split. Qed.

Section PathLoops.

Import Path.

Lemma scanBack_app {S : Type} (step : Z -> N -> S -> S * bool)
    (a b : list N) (i : Z) (st st' : S) :
  scanThrough step a i st = Some st' ->
  scanBack step (a ++ b) i st =
  scanBack step b (i - Z.of_nat (List.length a)) st'.
Proof.
  revert i st. induction a as [|c a IH]; intros i st H; simpl in H.
  - injection H as <-. simpl. f_equal. lia.
  - cbn [app scanBack]. destruct (step i c st) as [st1 stop].
    destruct stop; [discriminate|].
    rewrite (IH _ _ H). f_equal. cbn [List.length]. lia.
Qed.

Lemma scanThrough_app {S : Type} (step : Z -> N -> S -> S * bool)
    (a b : list N) (i : Z) (st st' : S) :
  scanThrough step a i st = Some st' ->
  scanThrough step (a ++ b) i st =
  scanThrough step b (i - Z.of_nat (List.length a)) st'.
Proof.
  revert i st. induction a as [|c a IH]; intros i st H; simpl in H.
  - injection H as <-. simpl. f_equal. lia.
  - cbn [app scanThrough]. destruct (step i c st) as [st1 stop].
    destruct stop; [discriminate|].
    rewrite (IH _ _ H). f_equal. cbn [List.length]. lia.
Qed.

Lemma noCode_cons (c x : N) (l : list N) :
  noCode c (x :: l) <-> (x =? c)%N = false /\ noCode c l.
Proof.
  unfold noCode. simpl. rewrite andb_true_iff, negb_true_iff. tauto.
Qed.

Lemma noCode_app (c : N) (a b : list N) :
  noCode c (a ++ b) <-> noCode c a /\ noCode c b.
Proof. unfold noCode. rewrite forallb_app, andb_true_iff. tauto. Qed.

Lemma noCode_rev (c : N) (l : list N) : noCode c l -> noCode c (rev l).
Proof.
  induction l as [|x l IH]; [trivial|].
  intros H. apply noCode_cons in H as [Hx Hl]. simpl.
  apply noCode_app. split; [auto|]. apply noCode_cons. now split.
Qed.

(** *** [extname] *)

Lemma extStep_plain (i : Z) (c : N) (en : Z) (ms : bool) :
  (c =? cu_slash)%N = false -> (c =? cu_dot)%N = false ->
  extStep i c (mkExt (-1) 0 en ms 0) =
  (if en =? -1 then mkExt (-1) 0 (i + 1) false 0 else mkExt (-1) 0 en ms 0,
   false).
Proof.
  intros Hs Hd. unfold extStep. rewrite Hs, Hd.
  now destruct (en =? -1).
Qed.

(** Before the first dot: neither slashes nor dots. *)
Lemma ext_before_dot (l : list N) (i en : Z) (ms : bool) :
  noCode cu_slash l -> noCode cu_dot l ->
  Z.of_nat (List.length l) - 1 <= i ->
  scanThrough extStep l i (mkExt (-1) 0 en ms 0) =
  Some (match l with
        | [] => mkExt (-1) 0 en ms 0
        | _ :: _ => if en =? -1 then mkExt (-1) 0 (i + 1) false 0
                    else mkExt (-1) 0 en ms 0
        end).
Proof.
  revert i en ms. induction l as [|c l IH]; intros i en ms Hs Hd Hi;
    [reflexivity|].
  apply noCode_cons in Hs as [Hcs Hs]. apply noCode_cons in Hd as [Hcd Hd].
  cbn [scanThrough]. rewrite (extStep_plain i c en ms Hcs Hcd).
  cbn [List.length] in Hi.
  destruct (Z.eqb_spec en (-1)) as [->|Hen].
  - rewrite IH by (auto; lia).
    destruct l; [reflexivity|].
    destruct (Z.eqb_spec (i + 1) (-1)); [lia|reflexivity].
  - rewrite IH by (auto; lia).
    destruct l; [reflexivity|].
    destruct (Z.eqb_spec en (-1)); [contradiction|reflexivity].
Qed.

Lemma extStep_dot (i en : Z) (ms : bool) :
  extStep i cu_dot (mkExt (-1) 0 en ms 0) =
  (if en =? -1 then mkExt i 0 (i + 1) false 0 else mkExt i 0 en ms 0, false).
Proof. unfold extStep. simpl. now destruct (en =? -1). Qed.

Lemma extStep_after (i : Z) (c : N) (sd sp en pd : Z) (ms : bool) :
  (c =? cu_slash)%N = false -> sd <> -1 -> en <> -1 ->
  extStep i c (mkExt sd sp en ms pd) =
  (mkExt sd sp en ms
     (if (c =? cu_dot)%N then 1 else -1), false).
Proof.
  intros Hs Hsd Hen. unfold extStep. rewrite Hs.
  destruct (Z.eqb_spec en (-1)); [contradiction|].
  destruct (Z.eqb_spec sd (-1)); [contradiction|]. cbn [negb].
  destruct (c =? cu_dot)%N; [|reflexivity].
  now destruct (Z.eqb_spec pd 1) as [->|].
Qed.

Lemma extStep_slash (i sd sp en pd : Z) :
  extStep i cu_slash (mkExt sd sp en false pd) =
  (mkExt sd (i + 1) en false pd, true).
Proof. reflexivity. Qed.

(** After the dot: no slash; the last code unit seen decides
    [preDotState]. *)
Lemma ext_after_dot (l : list N) (i sd sp en pd : Z) (ms : bool) :
  noCode cu_slash l -> sd <> -1 -> en <> -1 ->
  scanThrough extStep l i (mkExt sd sp en ms pd) =
  Some (mkExt sd sp en ms
          match rev l with
          | [] => pd
          | c :: _ => if (c =? cu_dot)%N then 1 else -1
          end).
Proof.
  intros Hs Hsd Hen. revert i pd Hs.
  induction l as [|c l IH] using rev_ind; intros i pd Hs; [reflexivity|].
  apply noCode_app in Hs as [Hl Hc]. apply noCode_cons in Hc as [Hc _].
  rewrite (scanThrough_app _ _ _ _ _ _ (IH i pd Hl)).
  rewrite rev_unit. cbn [scanThrough].
  now rewrite (extStep_after _ c sd sp en _ ms Hc Hsd Hen).
Qed.

Lemma slice_app (a b c : list N) :
  slice (a ++ b ++ c) (Z.of_nat (List.length a))
        (Z.of_nat (List.length a) + Z.of_nat (List.length b)) = b.
Proof.
  unfold slice. rewrite Nat2Z.id.
  replace (Z.to_nat _) with (List.length b) by lia.
  now rewrite drop_app_length, take_app_length.
Qed.

(** The extension of [dir/stem.ext]: from the last dot of the last
    component on, unless that component is [..]. *)
Lemma extname_stem_ext (dir stem ext : list N) :
  isDirPrefix dir ->
  stem <> [] -> noCode cu_slash stem ->
  noCode cu_slash ext -> noCode cu_dot ext ->
  ~ (stem = [cu_dot] /\ ext = []) ->
  extname (dir ++ stem ++ cu_dot :: ext) = cu_dot :: ext.
Proof.
  intros Hdir Hstem Hss Hes Hed Hdots.
  unfold extname, forDown.
  set (f := dir ++ stem ++ cu_dot :: ext).
  set (L := Z.of_nat (List.length f)).
  set (j := Z.of_nat (List.length dir) + Z.of_nat (List.length stem)).
  assert (HL : L = j + 1 + Z.of_nat (List.length ext)).
  { subst L j f. rewrite !length_app. cbn [List.length]. lia. }
  assert (Hrev : rev f = (rev ext ++ [cu_dot]) ++ rev stem ++ rev dir).
  { subst f. rewrite !rev_app_distr. cbn [rev].
    now rewrite <- !app_assoc. }
  rewrite Hrev.
  (* the extension and its dot *)
  assert (H2 : scanThrough extStep (rev ext ++ [cu_dot]) (L - 1)
                 (mkExt (-1) 0 (-1) true 0) = Some (mkExt j 0 L false 0)).
  { pose proof (ext_before_dot (rev ext) (L - 1) (-1) true
                  (noCode_rev _ _ Hes) (noCode_rev _ _ Hed)
                  ltac:(rewrite length_rev; lia)) as H1.
    change (-1 =? -1) with true in H1. cbv iota in H1.
    rewrite (scanThrough_app _ _ _ _ _ _ H1).
    cbn [scanThrough]. rewrite length_rev.
    replace (L - 1 - Z.of_nat (List.length ext)) with j by lia.
    destruct (rev ext) eqn:E; cbv iota; rewrite extStep_dot.
    - assert (ext = []) as -> by (apply (f_equal (@rev N)) in E;
        now rewrite rev_involutive in E).
      change (-1 =? -1) with true. cbv iota. simpl in HL.
      replace (j + 1) with L by lia. reflexivity.
    - replace (L - 1 + 1) with L by lia.
      destruct (Z.eqb_spec L (-1)); [lia|reflexivity]. }
  rewrite (scanBack_app _ _ _ _ _ _ H2).
  (* the stem *)
  destruct stem as [|c0 stem']; [contradiction|].
  assert (H3 := ext_after_dot (rev (c0 :: stem'))
                  (L - 1 - Z.of_nat (List.length (rev ext ++ [cu_dot])))
                  j 0 L 0 false (noCode_rev _ _ Hss)
                  ltac:(subst j; lia) ltac:(lia)).
  rewrite rev_involutive in H3.
  rewrite (scanBack_app _ _ _ _ _ _ H3).
  set (pd := if (c0 =? cu_dot)%N then 1 else -1).
  (* the directory *)
  assert (Hfin : exists sp,
            scanBack extStep (rev dir)
              (L - 1 - Z.of_nat (List.length (rev ext ++ [cu_dot]))
               - Z.of_nat (List.length (rev (c0 :: stem'))))
              (mkExt j 0 L false pd) = mkExt j sp L false pd /\
            sp = Z.of_nat (List.length dir)).
  { destruct Hdir as [->|[d ->]].
    - exists 0. split; reflexivity.
    - rewrite rev_unit. cbn [scanBack]. rewrite extStep_slash.
      eexists. split; [reflexivity|].
      subst j. rewrite ?length_rev, ?length_app in *.
      cbn [List.length] in *. rewrite ?length_rev. lia. }
  destruct Hfin as (sp & -> & Hsp).
  assert (Hcond : (j =? -1) || (L =? -1) || (pd =? 0)
                  || ((pd =? 1) && (j =? L - 1) && (j =? sp + 1)) = false).
  { destruct (Z.eqb_spec j (-1)); [subst j; lia|].
    destruct (Z.eqb_spec L (-1)); [lia|].
    assert ((pd =? 0) = false) as ->
      by (subst pd; now destruct (c0 =? _)%N).
    cbn [orb].
    destruct (Z.eqb_spec pd 1) as [Hpd|]; [|reflexivity].
    destruct (Z.eqb_spec j (L - 1)) as [HjL|]; [|reflexivity].
    destruct (Z.eqb_spec j (sp + 1)) as [Hjs|]; [|reflexivity].
    exfalso. apply Hdots.
    assert (ext = []) as -> by (destruct ext; [reflexivity|simpl in HL; lia]).
    assert (stem' = []) as ->
      by (destruct stem'; [reflexivity|subst j; simpl in Hjs; lia]).
    split; [|reflexivity]. f_equal.
    subst pd. destruct (N.eqb_spec c0 cu_dot); [assumption|discriminate]. }
  rewrite Hcond.
  replace j with (Z.of_nat (List.length (dir ++ c0 :: stem')))
    by (subst j; rewrite length_app; lia).
  replace L with (Z.of_nat (List.length (dir ++ c0 :: stem'))
                  + Z.of_nat (List.length (cu_dot :: ext)))
    by (rewrite HL; subst j; rewrite length_app; cbn [List.length]; lia).
  subst f.
  replace (dir ++ (c0 :: stem') ++ cu_dot :: ext)
    with ((dir ++ c0 :: stem') ++ (cu_dot :: ext) ++ [])
    by (now rewrite app_nil_r, <- app_assoc).
  apply slice_app.
Qed.

(** A name without any dot has no extension. *)
Lemma extname_no_dot (dir stem : list N) :
  isDirPrefix dir ->
  stem <> [] -> noCode cu_slash stem -> noCode cu_dot stem ->
  extname (dir ++ stem) = [].
Proof.
  intros Hdir Hne Hss Hsd. unfold extname, forDown.
  rewrite rev_app_distr.
  pose proof (ext_before_dot (rev stem)
                (Z.of_nat (List.length (dir ++ stem)) - 1) (-1) true
                (noCode_rev _ _ Hss) (noCode_rev _ _ Hsd)
                ltac:(rewrite length_rev, length_app; lia)) as H1.
  rewrite (scanBack_app _ _ _ _ _ _ H1).
  destruct (rev stem) eqn:E.
  { apply (f_equal (@rev N)) in E. rewrite rev_involutive in E.
    contradiction. }
  change (-1 =? -1) with true. cbv iota.
  destruct Hdir as [->|[d ->]]; [reflexivity|].
  rewrite rev_unit. cbn [scanBack]. now rewrite extStep_slash.
Qed.

(** *** [basename] *)

Lemma sameString_length (a b : list N) :
  sameString a b = true -> List.length a = List.length b.
Proof.
  revert b. induction a as [|x a IH]; intros [|y b] H; try discriminate;
    [reflexivity|].
  simpl in H. apply andb_prop in H as [_ H]. simpl. f_equal. auto.
Qed.

Lemma suffixStep_match (suffix : list N) (i : Z) (c : N)
    (start en ei fn : Z) (ms : bool) :
  (c =? cu_slash)%N = false -> 0 <= ei ->
  nth (Z.to_nat ei) suffix 0%N = c ->
  suffixStep suffix i c (mkBase start en ms ei fn) =
  (mkBase start (if ei - 1 =? -1 then i else en)
          (if fn =? -1 then false else ms) (ei - 1)
          (if fn =? -1 then i + 1 else fn), false).
Proof.
  intros Hs Hei Hn. unfold suffixStep. rewrite Hs, Hn, N.eqb_refl.
  destruct (Z.leb_spec 0 ei); [|lia].
  destruct (fn =? -1), (ei - 1 =? -1); reflexivity.
Qed.

Lemma suffixStep_rest (suffix : list N) (i : Z) (c : N)
    (start en ei fn : Z) (ms : bool) :
  (c =? cu_slash)%N = false -> ei < 0 -> fn <> -1 ->
  suffixStep suffix i c (mkBase start en ms ei fn) =
  (mkBase start en ms ei fn, false).
Proof.
  intros Hs Hei Hfn. unfold suffixStep. rewrite Hs.
  destruct (Z.eqb_spec fn (-1)); [contradiction|].
  destruct (Z.leb_spec 0 ei); [lia|reflexivity].
Qed.

(** The end of the path is the suffix: it is matched from its last code
    unit to its first. *)
Lemma suffix_matched (suffix seg : list N) :
  noCode cu_slash seg ->
  forall (pre post : list N) (i start en fn : Z) (ms : bool),
    suffix = pre ++ seg ++ post ->
    Z.of_nat (List.length seg) - 1 <= i ->
    scanThrough (suffixStep suffix) (rev seg) i
      (mkBase start en ms
         (Z.of_nat (List.length pre) + Z.of_nat (List.length seg) - 1) fn) =
    Some (match seg with
          | [] =>
            mkBase start en ms (Z.of_nat (List.length pre) - 1) fn
          | _ :: _ =>
            mkBase start
              (match pre with
               | [] => i - Z.of_nat (List.length seg) + 1
               | _ :: _ => en
               end)
              (if fn =? -1 then false else ms)
              (Z.of_nat (List.length pre) - 1)
              (if fn =? -1 then i + 1 else fn)
          end).
Proof.
  induction seg as [|c seg IH] using rev_ind;
    intros Hs pre post i start en fn ms Hsuf Hi.
  - cbn [rev scanThrough List.length]. do 2 f_equal. lia.
  - apply noCode_app in Hs as [Hseg Hc]. apply noCode_cons in Hc as [Hc _].
    rewrite rev_unit. cbn [scanThrough].
    rewrite length_app in *. cbn [List.length] in *.
    rewrite suffixStep_match; [|exact Hc|lia|].
    2:{ rewrite Hsuf.
        replace (Z.to_nat _) with (List.length (pre ++ seg))
          by (rewrite length_app; lia).
        replace (pre ++ (seg ++ [c]) ++ post)
          with ((pre ++ seg) ++ c :: post)
          by (now rewrite <- !app_assoc).
        rewrite app_nth2 by lia. now rewrite Nat.sub_diag. }
    replace (Z.of_nat (List.length pre)
             + Z.of_nat (List.length seg + 1) - 1 - 1)
      with (Z.of_nat (List.length pre) + Z.of_nat (List.length seg) - 1)
      by lia.
    rewrite (IH Hseg pre (c :: post))
      by (try lia; now rewrite Hsuf, <- app_assoc).
    f_equal.
    destruct seg as [|x seg'], pre as [|y pre']; cbn [List.length app] in *;
      repeat match goal with
             | |- context [Z.eqb ?a ?b] => destruct (Z.eqb_spec a b)
             end; try lia; f_equal; lia.
Qed.

Lemma suffix_rest (suffix l : list N) (i start en ei fn : Z) (ms : bool) :
  noCode cu_slash l -> ei < 0 -> fn <> -1 ->
  scanThrough (suffixStep suffix) l i (mkBase start en ms ei fn) =
  Some (mkBase start en ms ei fn).
Proof.
  intros Hs Hei Hfn. revert i.
  induction l as [|c l IH]; intros i; [reflexivity|].
  apply noCode_cons in Hs as [Hc Hs]. cbn [scanThrough].
  rewrite suffixStep_rest by assumption. auto.
Qed.

Lemma suffixStep_slash (suffix : list N) (i start en ei fn : Z) :
  suffixStep suffix i cu_slash (mkBase start en false ei fn) =
  (mkBase (i + 1) en false ei fn, true).
Proof. reflexivity. Qed.

(** [basename] of [dir/stem.ext] with the suffix [.ext] is [stem]. *)
Lemma basename_stem_ext (dir stem ext : list N) :
  isDirPrefix dir ->
  stem <> [] -> noCode cu_slash stem -> noCode cu_slash ext ->
  basename (dir ++ stem ++ cu_dot :: ext) (cu_dot :: ext) = stem.
Proof.
  intros Hdir Hstem Hss Hes. unfold basename.
  set (suffix := cu_dot :: ext).
  set (f := dir ++ stem ++ suffix).
  set (L := Z.of_nat (List.length f)).
  assert (HL : L = Z.of_nat (List.length dir) + Z.of_nat (List.length stem)
                   + Z.of_nat (List.length suffix))
    by (subst L f; rewrite !length_app; lia).
  assert (Hlen : (List.length suffix < List.length f)%nat).
  { subst f. rewrite !length_app. destruct stem; [contradiction|].
    cbn [List.length]. lia. }
  replace (0 <? List.length suffix)%nat with true by reflexivity.
  replace (List.length suffix <=? List.length f)%nat with true
    by (symmetry; apply Nat.leb_le; lia).
  cbn [andb].
  destruct (sameString suffix f) eqn:Esame;
    [apply sameString_length in Esame; lia|].
  unfold forDown.
  assert (Hrev : rev f = rev suffix ++ rev stem ++ rev dir).
  { subst f. rewrite !rev_app_distr. now rewrite <- !app_assoc. }
  rewrite Hrev. fold L.
  assert (Hsuf : noCode cu_slash suffix)
    by (apply noCode_cons; split; [reflexivity|exact Hes]).
  pose proof (suffix_matched suffix suffix Hsuf [] [] (L - 1) 0 (-1) (-1) true
                ltac:(now rewrite app_nil_r) ltac:(lia)) as H1.
  cbn [List.length Z.of_nat Z.add] in H1.
  unfold suffix at 4 in H1. cbv iota in H1.
  change (-1 =? -1) with true in H1. cbv iota in H1.
  rewrite (scanBack_app _ _ _ _ _ _ H1).
  rewrite (scanBack_app _ _ _ _ _ _
             (suffix_rest suffix (rev stem) _ 0 _ (0 - 1) (L - 1 + 1) false
                (noCode_rev _ _ Hss) ltac:(lia) ltac:(lia))).
  assert (Hfin : exists start,
            scanBack (suffixStep suffix) (rev dir)
              (L - 1 - Z.of_nat (List.length (rev suffix))
               - Z.of_nat (List.length (rev stem)))
              (mkBase 0 (L - 1 - Z.of_nat (List.length suffix) + 1) false
                      (0 - 1) (L - 1 + 1))
            = mkBase start (L - 1 - Z.of_nat (List.length suffix) + 1) false
                     (0 - 1) (L - 1 + 1)
            /\ start = Z.of_nat (List.length dir)).
  { destruct Hdir as [->|[d ->]].
    - exists 0. split; reflexivity.
    - rewrite rev_unit. cbn [scanBack]. rewrite suffixStep_slash.
      eexists. split; [reflexivity|].
      rewrite !length_rev. rewrite length_app in *.
      cbn [List.length] in *. lia. }
  destruct Hfin as (start & -> & Hstart).
  destruct (Z.eqb_spec start (L - 1 - Z.of_nat (List.length suffix) + 1));
    [destruct stem; [contradiction|cbn [List.length] in HL; lia]|].
  destruct (Z.eqb_spec (L - 1 - Z.of_nat (List.length suffix) + 1) (-1));
    [lia|].
  rewrite Hstart.
  replace (L - 1 - Z.of_nat (List.length suffix) + 1)
    with (Z.of_nat (List.length dir) + Z.of_nat (List.length stem)) by lia.
  subst f. apply slice_app.
Qed.

Lemma plain_rest (l : list N) (i start en ei fn : Z) (ms : bool) :
  noCode cu_slash l -> en <> -1 ->
  scanThrough plainStep l i (mkBase start en ms ei fn) =
  Some (mkBase start en ms ei fn).
Proof.
  intros Hs Hen. revert i.
  induction l as [|c l IH]; intros i; [reflexivity|].
  apply noCode_cons in Hs as [Hc Hs]. cbn [scanThrough].
  unfold plainStep at 1. rewrite Hc.
  destruct (Z.eqb_spec en (-1)); [contradiction|]. auto.
Qed.

(** [basename] of [dir/stem] without a suffix is [stem]. *)
Lemma basename_plain (dir stem : list N) :
  isDirPrefix dir ->
  stem <> [] -> noCode cu_slash stem ->
  basename (dir ++ stem) [] = stem.
Proof.
  intros Hdir Hstem Hss. unfold basename. cbn [List.length Nat.ltb Nat.leb andb].
  unfold forDown. rewrite rev_app_distr.
  set (L := Z.of_nat (List.length (dir ++ stem))).
  assert (HL : L = Z.of_nat (List.length dir) + Z.of_nat (List.length stem))
    by (subst L; rewrite length_app; lia).
  assert (H1 : scanThrough plainStep (rev stem) (L - 1)
                 (mkBase 0 (-1) true (-1) (-1))
               = Some (mkBase 0 L false (-1) (-1))).
  { apply noCode_rev in Hss.
    destruct (rev stem) as [|c l] eqn:E.
    { apply (f_equal (@rev N)) in E. rewrite rev_involutive in E.
      contradiction. }
    apply noCode_cons in Hss as [Hc Hl]. cbn [scanThrough].
    unfold plainStep at 1. rewrite Hc.
    change (-1 =? -1) with true. cbv iota.
    replace (L - 1 + 1) with L by lia.
    apply plain_rest; [exact Hl|].
    destruct stem; [contradiction|cbn [List.length] in HL; lia]. }
  rewrite (scanBack_app _ _ _ _ _ _ H1).
  assert (Hfin : scanBack plainStep (rev dir)
                   (L - 1 - Z.of_nat (List.length (rev stem)))
                   (mkBase 0 L false (-1) (-1))
                 = mkBase (Z.of_nat (List.length dir)) L false (-1) (-1)).
  { destruct Hdir as [->|[d ->]]; [reflexivity|].
    rewrite rev_unit. cbn [scanBack]. unfold plainStep.
    change (cu_slash =? cu_slash)%N with true. cbv iota. cbn [negb].
    do 2 f_equal. rewrite length_rev. lia. }
  rewrite Hfin.
  destruct (Z.eqb_spec L (-1)); [lia|].
  rewrite HL.
  replace (dir ++ stem) with (dir ++ stem ++ []) by now rewrite app_nil_r.
  apply slice_app.
Qed.

End PathLoops.

Section UnitId.

Lemma split_no_sep (sep : N) (s : list N) :
  noCode sep s -> split sep s = [s].
Proof.
  induction s as [|c s IH]; [reflexivity|].
  intros H. apply noCode_cons in H as [Hc Hs].
  simpl. now rewrite Hc, (IH Hs).
Qed.

Lemma split_at_sep (sep : N) (a r : list N) :
  noCode sep a -> split sep (a ++ sep :: r) = a :: split sep r.
Proof.
  induction a as [|c a IH]; intros H.
  - simpl. now rewrite N.eqb_refl.
  - apply noCode_cons in H as [Hc Ha]. simpl. now rewrite Hc, (IH Ha).
Qed.

(** No part of a split contains the separator. *)
Lemma split_parts (sep : N) (s : list N) :
  List.Forall (noCode sep) (split sep s).
Proof.
  induction s as [|c s IH]; [repeat constructor|].
  simpl. destruct (N.eqb_spec c sep) as [->|Hne].
  - constructor; [reflexivity|exact IH].
  - destruct (split sep s) as [|p ps]; [repeat constructor|].
    + apply noCode_cons. split; [now apply N.eqb_neq|reflexivity].
    + inversion IH; subst. constructor; [|assumption].
      apply noCode_cons. split; [now apply N.eqb_neq|assumption].
Qed.

(** The text that splits into one part only has no separator. *)
Lemma split_single (sep : N) (s p : list N) :
  split sep s = [p] -> p = s /\ noCode sep s.
Proof.
  revert p. induction s as [|c s IH]; intros p H.
  - injection H as <-. now split.
  - simpl in H. destruct (N.eqb_spec c sep) as [->|Hne].
    + injection H as _ H. now destruct s; simpl in H;
        [|destruct (_ =? _)%N; [|destruct (split sep s)]].
    + destruct (split sep s) as [|q qs] eqn:E; [destruct s; simpl in E;
        [discriminate|destruct (_ =? _)%N; [|destruct (split sep s)]];
        discriminate|].
      injection H as <- ->. destruct (IH q eq_refl) as [-> Hs].
      split; [reflexivity|].
      apply noCode_cons. split; [now apply N.eqb_neq|assumption].
Qed.

Lemma noCode_count (c : N) (l : list N) :
  noCode c l -> count_occ N.eq_dec l c = 0%nat.
Proof.
  induction l as [|x l IH]; [reflexivity|].
  intros H. apply noCode_cons in H as [Hx Hl]. simpl.
  destruct (N.eq_dec x c) as [->|]; [now rewrite N.eqb_refl in Hx|auto].
Qed.

Lemma digits_noCode (c : N) (l : list N) :
  isDigit c = false -> forallb isDigit l = true -> noCode c l.
Proof.
  intros Hc. induction l as [|x l IH]; [reflexivity|].
  simpl. intros H. apply andb_prop in H as [Hx Hl].
  apply noCode_cons. split; [|auto].
  destruct (N.eqb_spec x c) as [->|]; [congruence|reflexivity].
Qed.

(** The group of the pattern is a non-empty run of digits. *)
Lemma unitMatch_digits (s ds : list N) :
  unitMatch s = Some ds -> ds <> [] /\ forallb isDigit ds = true.
Proof.
  induction s as [|c s IH]; [discriminate|].
  cbn [unitMatch].
  destruct (unitMatchAt (c :: s)) as [ds'|] eqn:E; [|exact IH].
  intros [= ->]. unfold unitMatchAt in E.
  destruct s as [|n [|i [|t r]]]; try discriminate.
  destruct (_ && _ && _ && _); [|discriminate].
  pose proof (span_forall isDigit
    (snd (span (fun c0 => (c0 =? cu_underscore)%N || isSpace c0) r))) as H.
  destruct (fst (span isDigit _)) as [|d l]; [discriminate|].
  injection E as <-. split; [discriminate|exact H].
Qed.

Lemma unitMatch_no_digit (s : list N) :
  existsb isDigit s = false -> unitMatch s = None.
Proof.
  induction s as [|c s IH]; [reflexivity|].
  intros H. cbn [unitMatch].
  destruct (unitMatchAt (c :: s)) as [ds|] eqn:E.
  - exfalso. unfold unitMatchAt in E.
    destruct s as [|n [|i [|t r]]]; try discriminate.
    destruct (_ && _ && _ && _); [|discriminate].
    set (p := fun c0 => (c0 =? cu_underscore)%N || isSpace c0) in E.
    assert (Hr : existsb isDigit r = false).
    { simpl in H. repeat (apply orb_false_elim in H as [_ H]). exact H. }
    assert (Hr1 : existsb isDigit (snd (span p r)) = false).
    { rewrite (span_eq p r), existsb_app in Hr.
      now apply orb_false_elim in Hr as [_ Hr]. }
    destruct (snd (span p r)) as [|x r1]; [discriminate|].
    simpl in Hr1. apply orb_false_elim in Hr1 as [Hx _].
    simpl in E. rewrite Hx in E. discriminate.
  - apply IH. simpl in H. now apply orb_false_elim in H as [_ H].
Qed.

End UnitId.

(** The basename that [extractUnitId] works on: the last component of the
    path without its extension. *)
Lemma basename_without_extension (dir stem tail : list N) :
  isDirPrefix dir -> stem <> [] -> noCode Path.cu_slash stem ->
  isExtension stem tail ->
  Path.basename (dir ++ stem ++ tail) (Path.extname (dir ++ stem ++ tail))
  = stem.
Proof.
  intros Hdir Hne Hs [[-> Hd]|(ext & -> & Hes & Hed & Hdots)].
  - rewrite app_nil_r, extname_no_dot by assumption.
    now apply basename_plain.
  - rewrite extname_stem_ext by assumption.
    now apply basename_stem_ext.
Qed.

(** X1: for a file named [a_b], [a_b.ext] or [a_b_more.ext], in any
    directory, the unit is [a_b]: the first two fields of the name, whatever
    the first one is; further fields and the extension are dropped. *)
Theorem extractUnitId_first_two_fields
    (dir a b rest tail : list N) :
  isDirPrefix dir ->
  noCode cu_underscore a -> noCode Path.cu_slash a ->
  noCode cu_underscore b -> noCode Path.cu_slash b ->
  rest = [] \/ (exists r, rest = cu_underscore :: r) ->
  noCode Path.cu_slash rest ->
  isExtension (a ++ cu_underscore :: b ++ rest) tail ->
  extractUnitId (dir ++ (a ++ cu_underscore :: b ++ rest) ++ tail)
  = a ++ cu_underscore :: b.
Proof.
  intros Hdir Hau Has Hbu Hbs Hrest Hrs Hext. unfold extractUnitId.
  rewrite basename_without_extension; try assumption.
  - unfold unitIdOf. rewrite split_at_sep by assumption.
    destruct Hrest as [->|[r ->]].
    + now rewrite app_nil_r, split_no_sep.
    + now rewrite split_at_sep.
  - now destruct a.
  - apply noCode_app. split; [assumption|].
    apply noCode_cons. split; [reflexivity|].
    apply noCode_app. now split.
Qed.

Lemma extractUnitId_first_two_fields_witness :
  extractUnitId (utf16 "images/" ++
                 (utf16 "unit" ++ cu_underscore :: utf16 "1"
                  ++ utf16 "_20250105_143022") ++ utf16 ".jpg")
  = utf16 "unit" ++ cu_underscore :: utf16 "1".
Proof.
  apply (extractUnitId_first_two_fields (utf16 "images/") (utf16 "unit")
           (utf16 "1") (utf16 "_20250105_143022") (utf16 ".jpg"));
    try reflexivity.
  - right. now exists (utf16 "images").
  - right. now eexists.
  - right. exists (utf16 "jpg"). repeat split. now intros [H _].
Defined.

(** X2: whatever the file is called, the unit identifier contains exactly
    one underscore. *)
Theorem extractUnitId_one_underscore (filename : list N) :
  count_occ N.eq_dec (extractUnitId filename) cu_underscore = 1%nat.
Proof.
  unfold extractUnitId, unitIdOf.
  set (base := Path.basename _ _).
  pose proof (split_parts cu_underscore base) as Hparts.
  destruct (split cu_underscore base) as [|p0 [|p1 ps]].
  - destruct (unitMatch base) as [ds|] eqn:E; [|reflexivity].
    apply unitMatch_digits in E as [_ Hd].
    rewrite count_occ_app, (noCode_count _ ds); [reflexivity|].
    now apply digits_noCode.
  - destruct (unitMatch base) as [ds|] eqn:E; [|reflexivity].
    apply unitMatch_digits in E as [_ Hd].
    rewrite count_occ_app, (noCode_count _ ds); [reflexivity|].
    now apply digits_noCode.
  - inversion Hparts as [|? ? H0 Hps]; subst.
    inversion Hps as [|? ? H1 _]; subst.
    rewrite count_occ_app. cbn [count_occ].
    destruct (N.eq_dec cu_underscore cu_underscore); [|contradiction].
    now rewrite !noCode_count.
Qed.

(** X3: a file whose name has no underscore never yields its own name: the
    unit is [unit_] followed by digits taken from the name, and it is the
    default [unit_1] whenever the name has no digit at all. *)
Theorem extractUnitId_without_underscore (dir stem tail : list N) :
  isDirPrefix dir -> stem <> [] -> noCode Path.cu_slash stem ->
  isExtension stem tail ->
  noCode cu_underscore stem ->
  (exists ds, ds <> [] /\ forallb isDigit ds = true /\
              extractUnitId (dir ++ stem ++ tail) = utf16 "unit_" ++ ds) /\
  (unitMatch stem = None ->
   extractUnitId (dir ++ stem ++ tail) = utf16 "unit_1") /\
  (existsb isDigit stem = false ->
   extractUnitId (dir ++ stem ++ tail) = utf16 "unit_1").
Proof.
  intros Hdir Hne Hs Hext Hu. unfold extractUnitId.
  rewrite basename_without_extension by assumption.
  unfold unitIdOf. rewrite (split_no_sep _ _ Hu).
  split; [|split].
  - destruct (unitMatch stem) as [ds|] eqn:E.
    + apply unitMatch_digits in E as [H1 H2]. now exists ds.
    + exists (utf16 "1"). now repeat split.
  - now intros ->.
  - intros Hd. now rewrite (unitMatch_no_digit _ Hd).
Qed.

Lemma extractUnitId_without_underscore_witness :
  extractUnitId (utf16 "images/" ++ utf16 "sensor-a" ++ utf16 ".png")
  = utf16 "unit_1".
Proof.
  apply (extractUnitId_without_underscore (utf16 "images/")
           (utf16 "sensor-a") (utf16 ".png")); try reflexivity.
  - right. now exists (utf16 "images").
  - discriminate.
  - right. exists (utf16 "png"). repeat split. now intros [H _].
Defined.

(** ** Quadrants of an image of any size *)

(** X4: for every positive width and height the four regions lie inside the
    image and no pixel lies in two of them; they cover exactly the columns
    below [2 * floor(W/2)] and the rows below [2 * floor(H/2)], so the last
    column of an image of odd width, and the last row of one of odd height,
    belong to no region and are never read. *)
Theorem quadrants_any_size (W H : Z) :
  0 < W -> 0 < H ->
  (forall q x y,
     In q (quadrants W H) -> Region.contains (snd q) x y ->
     0 <= x < W /\ 0 <= y < H) /\
  (forall q1 q2 x y,
     In q1 (quadrants W H) -> In q2 (quadrants W H) ->
     Region.contains (snd q1) x y -> Region.contains (snd q2) x y ->
     q1 = q2) /\
  (forall x y,
     (exists q, In q (quadrants W H) /\ Region.contains (snd q) x y) <->
     (0 <= x < 2 * (W / 2) /\ 0 <= y < 2 * (H / 2))) /\
  (Z.odd W = true ->
   forall q y, In q (quadrants W H) -> ~ Region.contains (snd q) (W - 1) y) /\
  (Z.odd H = true ->
   forall q x, In q (quadrants W H) -> ~ Region.contains (snd q) x (H - 1)).
Proof.
  intros HW HH.
  pose proof (Z.div_mod W 2 ltac:(lia)) as EW.
  pose proof (Z.mod_pos_bound W 2 ltac:(lia)) as BW.
  pose proof (Z.div_mod H 2 ltac:(lia)) as EH.
  pose proof (Z.mod_pos_bound H 2 ltac:(lia)) as BH.
  unfold quadrants.
  set (w := W / 2) in *. set (h := H / 2) in *.
  assert (OW : Z.odd W = true -> W = 2 * w + 1).
  { intros Ho. rewrite Zmod_odd, Ho in EW. exact EW. }
  assert (OH : Z.odd H = true -> H = 2 * h + 1).
  { intros Ho. rewrite Zmod_odd, Ho in EH. exact EH. }
  repeat split.
  - simpl in H0. unfold Region.contains in H1.
    destruct H0 as [<-|[<-|[<-|[<-|[]]]]]; simpl in H1; lia.
  - simpl in H0. unfold Region.contains in H1.
    destruct H0 as [<-|[<-|[<-|[<-|[]]]]]; simpl in H1; lia.
  - simpl in H0. unfold Region.contains in H1.
    destruct H0 as [<-|[<-|[<-|[<-|[]]]]]; simpl in H1; lia.
  - simpl in H0. unfold Region.contains in H1.
    destruct H0 as [<-|[<-|[<-|[<-|[]]]]]; simpl in H1; lia.
  - intros q1 q2 x y H1 H2 C1 C2. simpl in H1, H2.
    destruct H1 as [<-|[<-|[<-|[<-|[]]]]];
      destruct H2 as [<-|[<-|[<-|[<-|[]]]]];
      try reflexivity;
      unfold Region.contains in C1, C2; simpl in C1, C2; lia.
  - destruct H0 as (q & Hq & Hc). simpl in Hq. unfold Region.contains in Hc.
    destruct Hq as [<-|[<-|[<-|[<-|[]]]]]; simpl in Hc; lia.
  - destruct H0 as (q & Hq & Hc). simpl in Hq. unfold Region.contains in Hc.
    destruct Hq as [<-|[<-|[<-|[<-|[]]]]]; simpl in Hc; lia.
  - destruct H0 as (q & Hq & Hc). simpl in Hq. unfold Region.contains in Hc.
    destruct Hq as [<-|[<-|[<-|[<-|[]]]]]; simpl in Hc; lia.
  - destruct H0 as (q & Hq & Hc). simpl in Hq. unfold Region.contains in Hc.
    destruct Hq as [<-|[<-|[<-|[<-|[]]]]]; simpl in Hc; lia.
  - intros [Hx Hy].
    destruct (Z_lt_le_dec x w), (Z_lt_le_dec y h).
    + exists (pH, Region.mk 0 0 w h).
      split; [simpl; tauto|]. unfold Region.contains. simpl. lia.
    + exists (dissolvedOxygen, Region.mk 0 h w h).
      split; [simpl; tauto|]. unfold Region.contains. simpl. lia.
    + exists (temperature, Region.mk w 0 w h).
      split; [simpl; tauto|]. unfold Region.contains. simpl. lia.
    + exists (salinity, Region.mk w h w h).
      split; [simpl; tauto|]. unfold Region.contains. simpl. lia.
  - intros Ho q y Hq Hc. specialize (OW Ho).
    simpl in Hq. unfold Region.contains in Hc.
    destruct Hq as [<-|[<-|[<-|[<-|[]]]]]; simpl in Hc; lia.
  - intros Ho q x Hq Hc. specialize (OH Ho).
    simpl in Hq. unfold Region.contains in Hc.
    destruct Hq as [<-|[<-|[<-|[<-|[]]]]]; simpl in Hc; lia.
Qed.

Lemma quadrants_any_size_witness :
  (0 < 401 /\ 0 < 301 /\ Z.odd 401 = true) /\
  ~ Region.contains (Region.mk 200 0 200 150) (401 - 1) 10.
Proof.
  split; [repeat split|].
  apply (proj1 (proj2 (proj2 (proj2 (quadrants_any_size 401 301
           eq_refl eq_refl)))) eq_refl
           (temperature, Region.mk 200 0 200 150) 10).
  left. reflexivity.
Defined.

(** ** More on the selection loop *)

(** X5: variants whose extraction is ["0.00"] have no influence at all:
    the loop gives the same value and the same confidence without them. *)
Theorem selectBest_ignores_placeholders (parameter : string)
    (obs : list Observation) :
  selectBest parameter obs =
  selectBest parameter (List.filter (isCandidate parameter) obs).
Proof.
  unfold selectBest. generalize ("0.00"%string, S754_zero false).
  induction obs as [|o obs IH]; intros best; [reflexivity|].
  simpl. destruct (isCandidate parameter o) eqn:E.
  - simpl. apply IH.
  - rewrite (bestStep_skip _ _ _ E). apply IH.
Qed.

(** X6: when all variants of a quadrant recognise the same text, the value
    of the quadrant is the extraction of that text, whatever the
    confidences are, NaN included. *)
Theorem selectBest_same_text (parameter : string) (t : list N)
    (obs : list Observation) :
  obs <> [] -> (forall o, In o obs -> text o = t) ->
  fst (selectBest parameter obs) = extractNumericValue t parameter.
Proof.
  intros Hne Hall.
  destruct (selectBest_invariant parameter obs)
    as [[Hno ->]|(i & o & Hi & _ & -> & _)].
  - destruct obs as [|o obs']; [contradiction|].
    simpl in Hno. apply andb_prop in Hno as [Ho _].
    unfold isCandidate in Ho. rewrite negb_involutive in Ho.
    apply String.eqb_eq in Ho. rewrite (Hall o) in Ho by now left.
    now rewrite Ho.
  - apply nth_error_In in Hi. simpl. now rewrite (Hall o Hi).
Qed.

Lemma selectBest_same_text_witness :
  fst (selectBest pH [ mkObs (utf16 "7.2") (Num.ofZ 12);
                       mkObs (utf16 "7.2") S754_nan;
                       mkObs (utf16 "7.2") (Num.ofZ 90) ])
  = extractNumericValue (utf16 "7.2") pH.
Proof.
  apply selectBest_same_text; [discriminate|].
  intros o [<-|[<-|[<-|[]]]]; reflexivity.
Defined.

(** ** Persistence *)

(** The record that [updateFirebase] writes has the keys of [data] and the
    two time stamps; every other key keeps the value of [data], and
    [lastUpdated] and [processedAt] are the time stamps even when [data]
    has keys of these names. *)
Lemma dataWithTimestamp_fields (data : gmap string string)
    (timestamp : string) :
  dom (dataWithTimestamp data timestamp) =
    dom data ∪ {[lastUpdated; processedAt]} /\
  dataWithTimestamp data timestamp !! lastUpdated =
    Some (DbString timestamp) /\
  dataWithTimestamp data timestamp !! processedAt =
    Some DbServerTimestamp /\
  (forall key, key <> lastUpdated -> key <> processedAt ->
     dataWithTimestamp data timestamp !! key = DbString <$> data !! key).
Proof.
  unfold dataWithTimestamp. repeat split.
  - rewrite !dom_insert_L, dom_fmap_L. apply set_eq. intros x.
    rewrite !elem_of_union, !elem_of_singleton. tauto.
  - rewrite lookup_insert_ne by discriminate. apply lookup_insert_eq.
  - apply lookup_insert_eq.
  - intros key H1 H2.
    rewrite !lookup_insert_ne by congruence. apply lookup_fmap.
Qed.

(** X7: the script writes to the database at most once, and only after the
    image was found, [initFirebase] returned and the extraction returned a
    result: the write goes to the unit of the file name and carries that
    result with the time stamps, and the script runs to its end exactly
    when the write resolves. *)
Theorem main_writes_only_a_result (w : World) (unitId : list N)
    (payload : gmap string DbValue) :
  In (CallUpdate unitId payload) (calls (main w)) ->
  exists imagePath results,
    argv2 w = Some imagePath /\ imagePath <> [] /\
    existsSync w imagePath = true /\
    fst (initFirebase w (appsLength w)) <> None /\
    processImage (imageEnv w imagePath) = Some results /\
    unitId = extractUnitId imagePath /\
    payload = dataWithTimestamp results (isoNow w) /\
    List.filter isUpdate (calls (main w)) = [CallUpdate unitId payload] /\
    (exitCode (main w) = None <-> updateResolves w unitId payload = true).
Proof.
  intros Hin.
  assert (Hf : In (CallUpdate unitId payload)
                  (List.filter isUpdate (calls (main w))))
    by (apply filter_In; now split).
  destruct (main_cases w) as [(_ & Hno & _)|
    (imagePath & results & Ha & Hne & He & Hi & Hp & Hu & Hx)].
  - rewrite Hno in Hf. contradiction.
  - rewrite Hu in Hf. destruct Hf as [E|[]]. injection E as <- <-.
    exists imagePath, results. repeat split; try assumption.
    + rewrite Hx. now destruct (updateResolves _ _ _).
    + rewrite Hx. now intros ->.
Qed.

Lemma main_writes_only_a_result_witness :
  let w := mkWorld (Some (utf16 "images/unit_4.png")) (fun _ => true) 0
                   true true true
                   (fun _ => mkEnv (Some (2, 2)) (fun _ _ => None))
                   "2025-01-05T14:30:22.000Z" (fun _ _ => true) in
  exists imagePath results,
    argv2 w = Some imagePath /\ imagePath <> [] /\
    existsSync w imagePath = true /\
    fst (initFirebase w (appsLength w)) <> None /\
    processImage (imageEnv w imagePath) = Some results /\
    extractUnitId (utf16 "images/unit_4.png") = extractUnitId imagePath /\
    dataWithTimestamp
      (<[salinity := "0.00"%string]>
       (<[dissolvedOxygen := "0.00"%string]>
       (<[pH := "0.00"%string]>
       (<[temperature := "0.00"%string]> ∅)))) (isoNow w)
    = dataWithTimestamp results (isoNow w) /\
    List.filter isUpdate (calls (main w)) =
      [CallUpdate (extractUnitId (utf16 "images/unit_4.png"))
         (dataWithTimestamp
            (<[salinity := "0.00"%string]>
             (<[dissolvedOxygen := "0.00"%string]>
             (<[pH := "0.00"%string]>
             (<[temperature := "0.00"%string]> ∅)))) (isoNow w))] /\
    (exitCode (main w) = None <->
     updateResolves w (extractUnitId (utf16 "images/unit_4.png"))
       (dataWithTimestamp
          (<[salinity := "0.00"%string]>
           (<[dissolvedOxygen := "0.00"%string]>
           (<[pH := "0.00"%string]>
           (<[temperature := "0.00"%string]> ∅)))) (isoNow w)) = true).
Proof.
  intros w.
  apply (main_writes_only_a_result w). right. left. reflexivity.
Defined.



(** ** The earlier variant *)

Example legacy_examples :
  legacyExtractNumericValue (utf16 "pH 7.4") pH = utf16 "7.4" /\
  legacyExtractNumericValue (utf16 "143 7") pH = utf16 "7" /\
  legacyExtractNumericValue (utf16 "-3.0 C") temperature = utf16 "3.0" /\
  legacyExtractNumericValue (utf16 "no digits") salinity = [].
Proof. vm_compute. repeat split. Qed.

Section Legacy.

Lemma matchAt_legacy (s : list N) :
  noCode cu_minus s -> matchAt s = legacyMatchAt s.
Proof.
  intros H. unfold matchAt, legacyMatchAt.
  destruct s as [|c r]; [reflexivity|].
  apply noCode_cons in H as [Hc _]. rewrite Hc.
  now destruct (span isDigit (c :: r)) as [[|d ds] r1].
Qed.

Lemma matchAllFrom_legacy (fuel : nat) (s : list N) :
  noCode cu_minus s -> matchAllFrom fuel s = legacyMatchAllFrom fuel s.
Proof.
  revert s. induction fuel as [|fuel IH]; intros s H; [reflexivity|].
  destruct s as [|c r]; [reflexivity|].
  cbn [matchAllFrom legacyMatchAllFrom].
  rewrite <- (matchAt_legacy _ H).
  destruct (matchAt (c :: r)) as [[tok rest]|] eqn:E.
  - f_equal. apply IH. apply matchAt_sound in E as [E _].
    rewrite E in H. now apply noCode_app in H as [_ H].
  - apply IH. now apply noCode_cons in H as [_ H].
Qed.

Lemma noCode_replaceNoise (c : N) (t : list N) :
  (c =? cu_space)%N = false -> noCode c t -> noCode c (replaceNoise t).
Proof.
  intros Hc. unfold replaceNoise.
  induction t as [|x t IH]; [trivial|].
  intros H. apply noCode_cons in H as [Hx Ht]. simpl.
  apply noCode_cons. split; [|auto].
  destruct (isNoise x); [now rewrite N.eqb_sym|exact Hx].
Qed.

Lemma noCode_dropWhile (c : N) (p : N -> bool) (s : list N) :
  noCode c s -> noCode c (dropWhile p s).
Proof.
  induction s as [|x s IH]; [trivial|].
  intros H. simpl. destruct (p x); [|exact H].
  apply IH. now apply noCode_cons in H as [_ H].
Qed.

Lemma noCode_trim (c : N) (s : list N) : noCode c s -> noCode c (trim s).
Proof.
  intros H. unfold trim.
  now apply noCode_rev, noCode_dropWhile, noCode_rev, noCode_dropWhile.
Qed.

Lemma legacy_tokens (text : list N) :
  noCode cu_minus text ->
  legacyMatchAll (trim (replaceNoise text)) =
  matchAll (trim (replaceNoise text)).
Proof.
  intros H. unfold legacyMatchAll, matchAll.
  rewrite matchAllFrom_legacy; [reflexivity|].
  now apply noCode_trim, noCode_replaceNoise.
Qed.

Lemma filter_map {A B : Type} (p : B -> bool) (f : A -> B) (l : list A) :
  List.filter p (map f l) = map f (List.filter (fun x => p (f x)) l).
Proof.
  induction l as [|a l IH]; [reflexivity|].
  simpl. destruct (p (f a)); simpl; now rewrite IH.
Qed.

Lemma selectValue_legacy (parameter : string) (numbers : list (list N))
    (first : list N) :
  selectValue parameter (map Num.parseFloat numbers) (Num.parseFloat first)
  = Num.parseFloat (legacySelect parameter numbers first).
Proof.
  unfold selectValue, legacySelect, preferInRange, legacyPrefer.
  repeat (destruct (String.eqb parameter _);
          [rewrite filter_map;
           now destruct (List.filter _ numbers)|]).
  reflexivity.
Qed.

Lemma legacySelect_in (parameter : string) (numbers : list (list N))
    (first : list N) :
  In first numbers -> In (legacySelect parameter numbers first) numbers.
Proof.
  intros Hf. unfold legacySelect, legacyPrefer.
  assert (H : forall p, In match List.filter p numbers with
                           | [] => first
                           | x :: _ => x
                           end numbers).
  { intros p. destruct (List.filter p numbers) as [|x l] eqn:E; [exact Hf|].
    assert (Hx : In x (List.filter p numbers)) by (rewrite E; now left).
    apply filter_In in Hx. tauto. }
  repeat (destruct (String.eqb parameter _); [apply H|]). exact Hf.
Qed.

End Legacy.

(** X9: on a text without a minus sign the two variants choose the same
    token: the current result is ["0.00"] where the earlier one is empty,
    and else the earlier result parsed and formatted with two fractional
    digits. *)
Theorem extractNumericValue_refines_legacy (text : list N)
    (parameter : string) :
  noCode cu_minus text ->
  extractNumericValue text parameter =
  match legacyExtractNumericValue text parameter with
  | [] => "0.00"%string
  | tok => Num.toFixed 2 (Num.parseFloat tok)
  end.
Proof.
  intros H.
  pose proof (tokensOf_shape text) as Hshape.
  pose proof (validNumbersOf_tokens text) as Hvalid.
  rewrite extractNumericValue_parsed.
  unfold legacyExtractNumericValue, parsedOf.
  rewrite (legacy_tokens text H). rewrite Hvalid.
  unfold tokensOf in *.
  destruct (matchAll (trim (replaceNoise text))) as [[|first rest]|];
    try reflexivity.
  cbn [map]. change (Num.parseFloat first :: map Num.parseFloat rest)
    with (map Num.parseFloat (first :: rest)).
  rewrite selectValue_legacy.
  pose proof (legacySelect_in parameter (first :: rest) first
                (or_introl eq_refl)) as Hin.
  rewrite List.Forall_forall in Hshape. apply Hshape in Hin.
  destruct Hin as (d & r & _ & [E|E]); now rewrite E.
Qed.

Lemma extractNumericValue_refines_legacy_witness :
  extractNumericValue (utf16 "T 143 21.5 C") temperature =
  Num.toFixed 2 (Num.parseFloat (utf16 "21.5")).
Proof.
  rewrite (extractNumericValue_refines_legacy (utf16 "T 143 21.5 C")
             temperature eq_refl).
  reflexivity.
Defined.

(** ** The shape of the result *)

Section ResultShape.

Lemma isFixedDecimal_exponent (f : nat) (neg : bool) (X : Z) :
  isFixedDecimal f
    (String.append (if neg then "-" else "")
                   (string_of_list_ascii (Num.toStringBig X))) = false.
Proof.
  unfold isFixedDecimal. cbv zeta.
  rewrite !list_of_append, list_ascii_of_string_of_list_ascii.
  pose proof (toStringBig_head X) as Hhead. unfold Num.toStringBig in *.
  destruct (Num.shortestDigits _ _ _ _) as [s n].
  destruct (Num.digitsOf s) as [|c rest]; [now destruct neg|].
  cbn [app] in Hhead.
  assert (Hc : Ascii.eqb c "-" = false).
  { destruct (Ascii.eqb_spec c "-") as [->|]; [discriminate|reflexivity]. }
  set (tail := match rest with
               | [] => []
               | _ :: _ => "."%char :: rest
               end ++ "e"%char :: "+"%char :: Num.digitsOf (n - 1)).
  assert (Hspan : span isDigitChar (c :: tail) = ([c], tail)).
  { apply (span_app isDigitChar [c] tail).
    - simpl. now rewrite Hhead.
    - subst tail. now destruct rest. }
  assert (Hbody : match tail with
                  | [] => false
                  | d :: fp =>
                    Ascii.eqb d "." && (List.length fp =? f)%nat
                    && forallb isDigitChar fp
                  end = false).
  { subst tail. destruct rest as [|x xs]; [reflexivity|].
    cbn [app forallb]. rewrite forallb_app. cbn [forallb].
    replace (isDigitChar "e") with false by reflexivity.
    cbn [andb]. now rewrite !andb_false_r. }
  destruct neg; cbn [list_ascii_of_string app Ascii.eqb Bool.eqb];
    rewrite ?Hc; fold tail; rewrite Hspan; exact Hbody.
Qed.

Lemma toFixed_fixed (f : nat) (x : spec_float) :
  isFixedDecimal (S f) (Num.toFixed (S f) x) = Num.absLt x (10 ^ 21).
Proof.
  destruct (Num.absLt x (10 ^ 21)) eqn:Hlt; [now apply toFixed_shape|].
  destruct x as [s|s| |s m e]; try discriminate.
  - now destruct s.
  - reflexivity.
  - unfold Num.toFixed. rewrite Hlt. apply isFixedDecimal_exponent.
Qed.

End ResultShape.

(** X10: the result is a decimal string with exactly two fractional digits
    -- an optional minus sign, digits, the point, two digits -- exactly when
    no number was found or the magnitude of the selected value is below
    10^21; from 10^21 on, and for a token that overflows to Infinity, it is
    never of that form. *)
Theorem extract_two_digits_iff (text : list N) (parameter : string) :
  isFixedDecimal 2 (extractNumericValue text parameter) =
  match parsedOf text with
  | [] => true
  | first :: _ =>
    Num.absLt (selectValue parameter (parsedOf text) first) (10 ^ 21)
  end.
Proof.
  rewrite extractNumericValue_parsed.
  destruct (parsedOf text) as [|first rest]; [reflexivity|].
  apply toFixed_fixed.
Qed.

(** ** Separators *)

Section Separators.

Lemma agreeUpTo_cons (sep : N -> bool) (x y : N) (a b : list N) :
  agreeUpTo sep (x :: a) (y :: b) = true <->
  (x = y \/ (sep x = true /\ sep y = true)) /\ agreeUpTo sep a b = true.
Proof.
  cbn [agreeUpTo].
  rewrite andb_true_iff, orb_true_iff, andb_true_iff, N.eqb_eq. tauto.
Qed.

Lemma agreeUpTo_length (sep : N -> bool) (a b : list N) :
  agreeUpTo sep a b = true -> List.length a = List.length b.
Proof.
  revert b. induction a as [|x a IH]; intros [|y b] H; try discriminate;
    [reflexivity|].
  apply agreeUpTo_cons in H as [_ H]. simpl. now rewrite (IH b H).
Qed.

Lemma agreeUpTo_mono (p q : N -> bool) (a b : list N) :
  (forall c, p c = true -> q c = true) ->
  agreeUpTo p a b = true -> agreeUpTo q a b = true.
Proof.
  intros Hpq. revert b.
  induction a as [|x a IH]; intros [|y b] H; try discriminate;
    [reflexivity|].
  apply agreeUpTo_cons in H as [Hxy H]. apply agreeUpTo_cons.
  split; [|now apply IH]. destruct Hxy as [->|[Hx Hy]]; auto.
Qed.

Lemma agreeUpTo_app (sep : N -> bool) (a b c d : list N) :
  agreeUpTo sep a b = true -> agreeUpTo sep c d = true ->
  agreeUpTo sep (a ++ c) (b ++ d) = true.
Proof.
  intros Hab Hcd. revert b Hab.
  induction a as [|x a IH]; intros [|y b] H; try discriminate;
    [exact Hcd|].
  apply agreeUpTo_cons in H as [Hxy H]. cbn [app]. apply agreeUpTo_cons.
  split; [exact Hxy|now apply IH].
Qed.

Lemma agreeUpTo_rev (sep : N -> bool) (a b : list N) :
  agreeUpTo sep a b = true -> agreeUpTo sep (rev a) (rev b) = true.
Proof.
  revert b. induction a as [|x a IH]; intros [|y b] H; try discriminate;
    [reflexivity|].
  apply agreeUpTo_cons in H as [Hxy H]. simpl.
  apply agreeUpTo_app; [now apply IH|].
  apply agreeUpTo_cons. now split.
Qed.

Lemma isSeparator_spec (c : N) :
  isSeparator c = true <->
  isDigit c = false /\ (c =? cu_dot)%N = false /\ (c =? cu_minus)%N = false.
Proof.
  unfold isSeparator.
  destruct (isDigit c), (c =? cu_dot)%N, (c =? cu_minus)%N; simpl;
    intuition congruence.
Qed.

Lemma isSpace_separator (c : N) : isSpace c = true -> isSeparator c = true.
Proof.
  intros H. apply isSeparator_spec. repeat split.
  - destruct (isDigit c) eqn:E; [|reflexivity].
    apply isDigit_facts in E as [E _]. congruence.
  - destruct (N.eqb_spec c cu_dot) as [->|]; [discriminate|reflexivity].
  - destruct (N.eqb_spec c cu_minus) as [->|]; [discriminate|reflexivity].
Qed.

Lemma agreeUpTo_replaceNoise (a b : list N) :
  agreeUpTo isSeparator a b = true ->
  agreeUpTo isSpace (replaceNoise a) (replaceNoise b) = true.
Proof.
  revert b. induction a as [|x a IH]; intros [|y b] H; try discriminate;
    [reflexivity|].
  apply agreeUpTo_cons in H as [Hxy H]. unfold replaceNoise. cbn [map].
  apply agreeUpTo_cons. split; [|now apply IH].
  destruct Hxy as [->|[Hx Hy]]; [now left|right].
  apply isSeparator_spec in Hx as (Hx1 & Hx2 & Hx3).
  apply isSeparator_spec in Hy as (Hy1 & Hy2 & Hy3).
  unfold isNoise. rewrite Hx1, Hx2, Hx3, Hy1, Hy2, Hy3. cbn [orb].
  rewrite !orb_false_r.
  split; [destruct (isSpace x) eqn:E|destruct (isSpace y) eqn:E];
    simpl; auto.
Qed.

Lemma agreeUpTo_dropWhile (a b : list N) :
  agreeUpTo isSpace a b = true ->
  agreeUpTo isSpace (dropWhile isSpace a) (dropWhile isSpace b) = true.
Proof.
  revert b. induction a as [|x a IH]; intros [|y b] H; try discriminate;
    [reflexivity|].
  pose proof H as H'. apply agreeUpTo_cons in H' as [Hxy Hab].
  cbn [dropWhile]. destruct Hxy as [->|[Hx Hy]].
  - destruct (isSpace y); [now apply IH|exact H].
  - rewrite Hx, Hy. now apply IH.
Qed.

Lemma agreeUpTo_trim (a b : list N) :
  agreeUpTo isSpace a b = true ->
  agreeUpTo isSpace (trim a) (trim b) = true.
Proof.
  intros H. unfold trim.
  now apply agreeUpTo_rev, agreeUpTo_dropWhile, agreeUpTo_rev,
    agreeUpTo_dropWhile.
Qed.

Lemma span_agree (a b : list N) :
  agreeUpTo isSeparator a b = true ->
  fst (span isDigit a) = fst (span isDigit b) /\
  agreeUpTo isSeparator (snd (span isDigit a)) (snd (span isDigit b)) = true.
Proof.
  revert b. induction a as [|x a IH]; intros [|y b] H; try discriminate;
    [now split|].
  pose proof H as H'. apply agreeUpTo_cons in H' as [Hxy Hab].
  destruct (IH b Hab) as [IH1 IH2]. cbn [span].
  destruct Hxy as [->|[Hx Hy]].
  - destruct (isDigit y); [|now split].
    destruct (span isDigit a), (span isDigit b). simpl in *.
    split; [now f_equal|exact IH2].
  - apply isSeparator_spec in Hx as (-> & _).
    apply isSeparator_spec in Hy as (-> & _). now split.
Qed.

(** The optional character of the pattern, the minus sign or the point. *)
Lemma optional_agree (k : N) (a b : list N) :
  isSeparator k = false ->
  agreeUpTo isSeparator a b = true ->
  fst match a with
      | c :: r => if (c =? k)%N then ([c], r) else ([], a)
      | [] => ([], a)
      end =
  fst match b with
      | c :: r => if (c =? k)%N then ([c], r) else ([], b)
      | [] => ([], b)
      end /\
  agreeUpTo isSeparator
    (snd match a with
         | c :: r => if (c =? k)%N then ([c], r) else ([], a)
         | [] => ([], a)
         end)
    (snd match b with
         | c :: r => if (c =? k)%N then ([c], r) else ([], b)
         | [] => ([], b)
         end) = true.
Proof.
  intros Hk H. destruct a as [|x a], b as [|y b]; try discriminate;
    [now split|].
  pose proof H as H'. apply agreeUpTo_cons in H' as [Hxy Hab].
  destruct Hxy as [->|[Hx Hy]].
  - destruct (y =? k)%N; now split.
  - destruct (N.eqb_spec x k) as [->|]; [congruence|].
    destruct (N.eqb_spec y k) as [->|]; [congruence|]. now split.
Qed.

Lemma matchAt_agree (a b : list N) :
  agreeUpTo isSeparator a b = true ->
  match matchAt a, matchAt b with
  | Some (t1, r1), Some (t2, r2) =>
    t1 = t2 /\ agreeUpTo isSeparator r1 r2 = true
  | None, None => True
  | _, _ => False
  end.
Proof.
  intros H. unfold matchAt.
  destruct (optional_agree cu_minus a b eq_refl H) as [Hs H0].
  destruct (match a with
            | c :: r => if (c =? cu_minus)%N then ([c], r) else ([], a)
            | [] => ([], a)
            end) as [sign1 a0].
  destruct (match b with
            | c :: r => if (c =? cu_minus)%N then ([c], r) else ([], b)
            | [] => ([], b)
            end) as [sign2 b0].
  simpl in Hs, H0. subst sign2.
  destruct (span_agree a0 b0 H0) as [Hd H1].
  destruct (span isDigit a0) as [ds1 a1], (span isDigit b0) as [ds2 b1].
  simpl in Hd, H1. subst ds2.
  destruct ds1 as [|d ds]; [exact I|].
  destruct (optional_agree cu_dot a1 b1 eq_refl H1) as [Hp H2].
  destruct (match a1 with
            | c :: r => if (c =? cu_dot)%N then ([c], r) else ([], a1)
            | [] => ([], a1)
            end) as [dot1 a2].
  destruct (match b1 with
            | c :: r => if (c =? cu_dot)%N then ([c], r) else ([], b1)
            | [] => ([], b1)
            end) as [dot2 b2].
  simpl in Hp, H2. subst dot2.
  destruct (span_agree a2 b2 H2) as [Hf H3].
  destruct (span isDigit a2) as [fs1 a3], (span isDigit b2) as [fs2 b3].
  simpl in Hf, H3. subst fs2. now split.
Qed.

Lemma matchAllFrom_agree (fuel : nat) (a b : list N) :
  agreeUpTo isSeparator a b = true ->
  matchAllFrom fuel a = matchAllFrom fuel b.
Proof.
  revert a b. induction fuel as [|fuel IH]; intros a b H; [reflexivity|].
  destruct a as [|x a], b as [|y b]; try discriminate; [reflexivity|].
  cbn [matchAllFrom]. pose proof (matchAt_agree _ _ H) as Hm.
  destruct (matchAt (x :: a)) as [[t1 r1]|],
           (matchAt (y :: b)) as [[t2 r2]|]; try contradiction.
  - destruct Hm as [-> Hr]. f_equal. now apply IH.
  - apply IH. now apply agreeUpTo_cons in H as [_ H].
Qed.

End Separators.

(** X11: what stands between the numbers of a text is immaterial: two
    texts that differ only in positions where both have a code unit other
    than a digit, the point or the minus sign -- a letter, a unit, a space, a
    line break -- give the same result for every Parameter. *)
Theorem extractNumericValue_separators (text1 text2 : list N)
    (parameter : string) :
  agreeUpTo isSeparator text1 text2 = true ->
  extractNumericValue text1 parameter = extractNumericValue text2 parameter.
Proof.
  intros H.
  assert (Hc : agreeUpTo isSeparator (trim (replaceNoise text1))
                                     (trim (replaceNoise text2)) = true).
  { apply (agreeUpTo_mono isSpace); [exact isSpace_separator|].
    now apply agreeUpTo_trim, agreeUpTo_replaceNoise. }
  unfold extractNumericValue, matchAll.
  rewrite (agreeUpTo_length _ _ _ Hc).
  now rewrite (matchAllFrom_agree _ _ _ Hc).
Qed.

Lemma extractNumericValue_separators_witness :
  extractNumericValue (utf16 "pH: 7.4 (21C)") pH =
  extractNumericValue [9; 9; 9; 32; 55; 46; 52; 10; 120; 50; 49; 8451; 33]%N
                      pH.
Proof.
  apply (extractNumericValue_separators (utf16 "pH: 7.4 (21C)")
           [9; 9; 9; 32; 55; 46; 52; 10; 120; 50; 49; 8451; 33]%N pH).
  reflexivity.
Defined.

(** ** The exit code *)

(** X12: a run exits with code 1 or runs to its end, and it runs to its end
    exactly when a path was given, the file exists, [initFirebase] returned,
    the image was decoded and the write resolved; what the OCR engine
    recognises or throws has no part in it beyond the record that is
    written. *)
Theorem main_exit_code (w : World) :
  (exitCode (main w) = None \/ exitCode (main w) = Some 1) /\
  (exitCode (main w) = None <->
   exists imagePath width height,
     argv2 w = Some imagePath /\ imagePath <> [] /\
     existsSync w imagePath = true /\
     fst (initFirebase w (appsLength w)) <> None /\
     decode (imageEnv w imagePath) = Some (width, height) /\
     updateResolves w (extractUnitId imagePath)
       (dataWithTimestamp
          (assemble (imageEnv w imagePath) (quadrants width height))
          (isoNow w)) = true).
Proof.
  destruct (main_cases w) as [(Hx & _ & Hbad)|
    (imagePath & results & Ha & Hne & He & Hi & Hp & _ & Hx)].
  - split; [now right|]. split; [congruence|].
    intros (imagePath & width & height & Ha & Hne & He & Hi & Hd & _).
    exfalso. destruct Hbad as [E|[E|(path & E & Hbad)]]; try congruence.
    assert (path = imagePath) as -> by congruence.
    destruct Hbad as [E'|[E'|E']]; try congruence.
    unfold processImage in E'. rewrite Hd in E'. discriminate.
  - unfold processImage in Hp.
    destruct (decode (imageEnv w imagePath)) as [[width height]|] eqn:Hd;
      [|discriminate].
    injection Hp as <-. rewrite Hx. split.
    + destruct (updateResolves _ _ _); auto.
    + split.
      * intros Hr. exists imagePath, width, height.
        repeat split; try assumption.
        now destruct (updateResolves _ _ _).
      * intros (path & width' & height' & Ha' & _ & _ & _ & Hd' & Hr).
        assert (path = imagePath) as -> by congruence.
        rewrite Hd in Hd'. injection Hd' as <- <-. now rewrite Hr.
Qed.

(** ** The earlier variant never reads a sign *)

Section LegacyTokens.

Lemma legacyMatchAt_chars (s tok rest : list N) :
  legacyMatchAt s = Some (tok, rest) ->
  forallb (fun c => isDigit c || (c =? cu_dot)%N) tok = true /\
  exists d r, tok = d :: r /\ isDigit d = true.
Proof.
  unfold legacyMatchAt. intros H.
  pose proof (span_forall isDigit s) as Hds.
  destruct (span isDigit s) as [ds r1]. simpl in Hds.
  destruct ds as [|d ds]; [discriminate|].
  assert (Hdot : forall dot r2,
            match r1 with
            | c :: r => if (c =? cu_dot)%N then ([c], r) else ([], r1)
            | [] => ([], r1)
            end = (dot, r2) ->
            forallb (fun c => isDigit c || (c =? cu_dot)%N) dot = true).
  { intros dot r2 E. destruct r1 as [|c r]; [now injection E as <- _|].
    destruct (c =? cu_dot)%N eqn:Ec; injection E as <- _; [|reflexivity].
    simpl. now rewrite Ec, orb_true_r. }
  destruct (match r1 with
            | c :: r => if (c =? cu_dot)%N then ([c], r) else ([], r1)
            | [] => ([], r1)
            end) as [dot r2].
  specialize (Hdot dot r2 eq_refl).
  pose proof (span_forall isDigit r2) as Hfs.
  destruct (span isDigit r2) as [fs r3]. simpl in Hfs.
  simpl in Hds. apply andb_prop in Hds as [Hd Hds].
  injection H as <- _. split.
  - assert (Hw : forall l, forallb isDigit l = true ->
                 forallb (fun c => isDigit c || (c =? cu_dot)%N) l = true).
    { intros l Hl. rewrite forallb_forall in *. intros x Hx.
      now rewrite (Hl x Hx). }
    cbn [app forallb]. rewrite Hd. cbn [orb andb].
    now rewrite !forallb_app, Hdot, (Hw _ Hds), (Hw _ Hfs).
  - now exists d, (ds ++ dot ++ fs).
Qed.

Lemma legacyMatchAllFrom_chars (fuel : nat) (s : list N) :
  List.Forall
    (fun tok =>
       forallb (fun c => isDigit c || (c =? cu_dot)%N) tok = true /\
       exists d r, tok = d :: r /\ isDigit d = true)
    (legacyMatchAllFrom fuel s).
Proof.
  revert s. induction fuel as [|fuel IH]; intros s; [constructor|].
  destruct s as [|c r]; [constructor|]. cbn [legacyMatchAllFrom].
  destruct (legacyMatchAt (c :: r)) as [[tok rest]|] eqn:E; [|apply IH].
  constructor; [now apply (legacyMatchAt_chars _ _ _ E)|apply IH].
Qed.

End LegacyTokens.

(** X13: the earlier variant never reads a sign: its result is empty or a
    token that starts with a digit and holds digits and points only, so a
    minus sign before a reading is lost, where the current pattern keeps
    it. *)
Theorem legacy_result_unsigned (text : list N) (parameter : string) :
  legacyExtractNumericValue text parameter = [] \/
  (forallb (fun c => isDigit c || (c =? cu_dot)%N)
           (legacyExtractNumericValue text parameter) = true /\
   exists d r, legacyExtractNumericValue text parameter = d :: r /\
               isDigit d = true).
Proof.
  unfold legacyExtractNumericValue, legacyMatchAll.
  pose proof (legacyMatchAllFrom_chars
                (List.length (trim (replaceNoise text)))
                (trim (replaceNoise text))) as H.
  destruct (legacyMatchAllFrom _ _) as [|first rest]; [now left|].
  right. rewrite List.Forall_forall in H. apply H.
  apply legacySelect_in. now left.
Qed.

(** ** Negative readings *)

Section Signs.

Lemma binary_round_aux_unsigned (m e : Z) (l : location) :
  signBit (binary_round_aux Num.prec Num.emax false m e l) = false.
Proof.
  unfold binary_round_aux.
  destruct (shr_fexp Num.prec Num.emax m e l) as [mrs' e'].
  destruct (shr_fexp _ _ _ e' loc_Exact) as [mrs'' e''].
  destruct (shr_m mrs'') as [|p|p]; try reflexivity.
  now destruct (e'' <=? _).
Qed.

Lemma ofDecimal_unsigned (n e10 : Z) :
  signBit (Num.ofDecimal false n e10) = false.
Proof.
  unfold Num.ofDecimal. destruct n as [|p|p]; try reflexivity.
  destruct (0 <=? e10).
  - unfold binary_round. destruct (shl_align _ _ _) as [mz ez].
    apply binary_round_aux_unsigned.
  - unfold SFdiv. destruct (SFdiv_core_binary _ _ _ _ _ _) as [[mz ez] lz].
    apply binary_round_aux_unsigned.
Qed.

Lemma strDecimalValue_unsigned (s : list N) :
  signBit (Num.strDecimalValue false s) = false.
Proof.
  unfold Num.strDecimalValue.
  destruct (startsWith _ _); [reflexivity|].
  destruct (span isDigit s) as [ip r1].
  destruct (match r1 with
            | [] => _
            | c :: r' => _
            end) as [fp r2].
  destruct (ip ++ fp); [reflexivity|]. apply ofDecimal_unsigned.
Qed.

Lemma parseFloat_unsigned (d : N) (r : list N) :
  isDigit d = true -> signBit (Num.parseFloat (d :: r)) = false.
Proof.
  intros Hd. destruct (isDigit_facts d Hd) as (Hs & Hm & Hp & _).
  unfold Num.parseFloat. cbn [dropWhile]. rewrite Hs, Hm, Hp.
  apply strDecimalValue_unsigned.
Qed.

Lemma toFixed_unsigned (f : nat) (x : spec_float) :
  signBit x = false -> startsWithMinus (Num.toFixed (S f) x) = false.
Proof.
  intros Hx. destruct x as [s|s| |s m e]; simpl in Hx; subst;
    try reflexivity.
  - unfold Num.toFixed.
    destruct (fixedDigits_shape f 0) as (ip & fp & -> & H1 & H2 & _).
    destruct ip as [|c ip]; [simpl in H1; lia|].
    simpl in H2. apply andb_prop in H2 as [Hc _]. simpl.
    destruct (Ascii.eqb_spec c "-") as [->|]; [discriminate|reflexivity].
  - unfold Num.toFixed. cbn [String.append].
    destruct (Num.absLt _ _).
    + destruct (fixedDigits_shape f (Num.scaledRound m e (S f)))
        as (ip & fp & -> & H1 & H2 & _).
      destruct ip as [|c ip]; [simpl in H1; lia|].
      simpl in H2. apply andb_prop in H2 as [Hc _]. simpl.
      destruct (Ascii.eqb_spec c "-") as [->|]; [discriminate|reflexivity].
    + pose proof (toStringBig_head
                    (if 0 <=? e then Z.pos m * 2 ^ e
                     else Z.pos m / 2 ^ (- e))) as H.
      destruct (Num.toStringBig _) as [|c r]; [reflexivity|]. simpl.
      destruct (Ascii.eqb_spec c "-") as [->|]; [discriminate|reflexivity].
Qed.

End Signs.

(** X14: a negative result needs a minus sign in the text: when the
    recognised text holds no minus sign, the result does not start with
    one, for every Parameter. *)
Theorem extract_negative_needs_minus (text : list N) (parameter : string) :
  noCode cu_minus text ->
  startsWithMinus (extractNumericValue text parameter) = false.
Proof.
  intros H. rewrite extractNumericValue_parsed.
  destruct (parsedOf text) as [|first rest] eqn:E; [reflexivity|].
  apply toFixed_unsigned.
  pose proof (selectValue_in parameter (first :: rest) first
                (or_introl eq_refl)) as Hin.
  set (v := selectValue parameter (first :: rest) first) in *.
  rewrite <- E in Hin. unfold parsedOf in Hin.
  rewrite validNumbersOf_tokens in Hin.
  apply in_map_iff in Hin as (tok & <- & Htok).
  unfold tokensOf in Htok. rewrite <- (legacy_tokens text H) in Htok.
  unfold legacyMatchAll in Htok.
  pose proof (legacyMatchAllFrom_chars
                (List.length (trim (replaceNoise text)))
                (trim (replaceNoise text))) as Hchars.
  destruct (legacyMatchAllFrom _ _) as [|t ts]; [contradiction|].
  rewrite List.Forall_forall in Hchars.
  destruct (Hchars tok Htok) as (_ & d & r & -> & Hd).
  now apply parseFloat_unsigned.
Qed.

Lemma extract_negative_needs_minus_witness :
  startsWithMinus (extractNumericValue (utf16 "T 21.5 C") temperature)
  = false.
Proof.
  apply (extract_negative_needs_minus (utf16 "T 21.5 C") temperature).
  reflexivity.
Defined.
